(** * Phase-space characterisation: [extras/helpers.py]

    A shallow embedding of [characterize_phase_space] and of the NumPy
    operations it calls, followed by the properties of its four stages
    (sampler, separatrix locator, boundary characteriser, area).

    Numbers.  Python's [float] is IEEE binary64, which is the kernel's
    primitive [float] with round-to-nearest-even.  Wherever the code takes
    a decision with basic operations only, it is embedded bit for bit on
    primitive floats: the separatrix locator ([+], [-], [/], [>]), the
    search of the sample closest to the septum ([-], [abs], [np.argmin])
    and the search of the three fixed points (complex [+], [-], [*],
    [np.abs], [<], [np.argmax]), with NumPy's treatment of NaN.  NumPy's
    numerical routines ([np.angle], [np.argsort] of the angles,
    [np.polyfit], [np.linalg.det]) and the values handed to the caller or
    to matplotlib are embedded as real numbers, the exact value [B2R] of
    the recorded samples; the rounding error of these routines is outside
    the model, and so are infinite and NaN samples there.  The fixed-point
    search is also given a second time in exact arithmetic, for the
    geometric properties that hold with a margin no rounding can close.

    Control.  A Python exception is an [outcome]; the [while] loop runs on
    an iteration budget, and the locator's properties show that 15 passes
    always suffice.  The local variables alive at the plotting branch are
    kept in a namespace keyed by their names, so that a rebinding in the
    branch would show in the returned dictionary. *)

From Stdlib Require Import String.
From Stdlib Require Import Floats Uint63 ZArith List Bool Reals Lra Lia Permutation.
From Stdlib Require Import Sorted.
Import ListNotations.

Set Warnings "-inexact-float".

(** ** Python outcomes *)

(** The exceptions of the model: [IndexError] and [ValueError] from
    indexing and from reductions of empty arrays, [LinAlgError] from
    [np.polyfit]; [NameError] and [TypeError] are what reading a local
    variable that is unbound, or bound to another kind of object, gives. *)
Inductive exn : Type :=
| IndexError
| ValueError
| LinAlgError
| NameError
| TypeError.

(** A call returns a value, raises, or (for the [while] loop, which is run
    with an iteration budget) exhausts the budget. *)
Inductive outcome (A : Type) : Type :=
| Ok (a : A)
| Raise (e : exn)
| OutOfFuel.

Arguments Ok {A} a.
Arguments Raise {A} e.
Arguments OutOfFuel {A}.

Definition bind {A B : Type} (m : outcome A) (k : A -> outcome B) : outcome B :=
  match m with
  | Ok a => k a
  | Raise e => Raise e
  | OutOfFuel => OutOfFuel
  end.

Notation "x <- m ;; k" := (bind m (fun x => k))
  (at level 61, m at next level, right associativity).
Notation "' p <- m ;; k" := (bind m (fun p => k))
  (at level 61, p pattern, m at next level, right associativity).

Definition fmap {A B : Type} (f : A -> B) (m : outcome A) : outcome B :=
  x <- m ;; Ok (f x).

(** ** Data model *)

(** One particle at one turn, as the turn-by-turn monitor records it. *)
Module Sample.
Record t : Type := mk
  { x : float; px : float; y : float; py : float;
    zeta : float; delta : float; state : Z }.
End Sample.

(** [line.record_last_track]: [n_particles] rows of [n_turns] samples. *)
Definition TrackRecord : Type := list (list Sample.t).

Module NormSample.
Record t : Type := mk { x_norm : float; px_norm : float }.
End NormSample.

Definition NormalizedRecord : Type := list (list NormSample.t).

(** [xt.TwissTable]: only the normalising transform is used.  It acts on
    each sample's coordinates separately, so the normalised record has the
    shape of the tracked one. *)
Record TwissTable : Type := mkTwiss
  { normalize : Sample.t -> NormSample.t }.

Definition get_normalized_coordinates (twiss : TwissTable) (record : TrackRecord)
  : NormalizedRecord :=
  map (map (normalize twiss)) record.

(** Initial conditions of one particle (the coordinates left out are 0). *)
Record Particle : Type := mkParticle { x0 : float; px0 : float }.

(** [xt.Line]: the external collaborators.  [track line parts num_turns] is
    the [record_last_track] left by
    [line.track(parts, num_turns=num_turns, turn_by_turn_monitor=True)];
    the tracker is deterministic. *)
Record Line : Type := mkLine
  { twiss4d : TwissTable;
    track : list Particle -> nat -> TrackRecord }.

(** [line.build_particles(x=..., px=...)]. *)
Definition build_particles (xs : list float) (px : float) : list Particle :=
  map (fun xi => mkParticle xi px) xs.

(** [rec.x] and [rec.px] as 2-D arrays. *)
Definition rec_x (r : TrackRecord) : list (list float) := map (map Sample.x) r.
Definition rec_px (r : TrackRecord) : list (list float) := map (map Sample.px) r.

(** ** Separatrix locator (lines 88-98) *)

Definition x_septum : float := 3.5e-2%float.
Definition num_turns : nat := 1000.

(** [(a > t).any()] on a 2-D array. *)
Definition any_gt (a : list (list float)) (t : float) : bool :=
  existsb (existsb (fun v => (t <? v)%float)) a.

(** The bracket [(x_stable, x_unstable)]. *)
Definition bracket : Type := (float * float)%type.

Definition bracket0 : bracket := (0%float, 0.03%float).

(** The loop test [x_unstable - x_stable > 1e-6]. *)
Definition keep_going (b : bracket) : bool :=
  (1e-6 <? snd b - fst b)%float.

Definition midpoint (b : bracket) : float :=
  ((fst b + snd b) / 2)%float.

(** Lines 91-95: track one particle at [x_test]; is it unstable? *)
Definition unstable (line : Line) (x_test : float) : bool :=
  let p := build_particles [x_test] 0%float in
  let rec_test := track line p num_turns in
  any_gt (rec_x rec_test) x_septum.

(** One pass through the loop body. *)
Definition bisect_step (line : Line) (b : bracket) : bracket :=
  let x_test := midpoint b in
  if unstable line x_test then (fst b, x_test) else (x_test, snd b).

(** The [while] loop, with an iteration budget. *)
Fixpoint bisect (fuel : nat) (line : Line) (b : bracket) : outcome bracket :=
  if keep_going b then
    match fuel with
    | O => OutOfFuel
    | S fuel' => bisect fuel' line (bisect_step line b)
    end
  else Ok b.

(** The bracket after [k] passes (it stays put once the loop has exited). *)
Definition loop_pass (line : Line) (b : bracket) : bracket :=
  if keep_going b then bisect_step line b else b.

Definition passes (line : Line) (k : nat) (b : bracket) : bracket :=
  Nat.iter k (loop_pass line) b.

Definition bracket_at (line : Line) (k : nat) : bracket :=
  passes line k bracket0.

(** Every run of the loop follows one path of the binary tree of
    classifications.  [all_paths n P Q b] explores the whole tree below
    [b] to depth [n]: [P] must hold at every bracket on which the loop
    iterates, for both outcomes of the classification, and [Q] at every
    bracket on which it exits. *)
Definition narrowed (u : bool) (b : bracket) : bracket :=
  if u then (fst b, midpoint b) else (midpoint b, snd b).

Fixpoint all_paths (n : nat) (P : bracket -> bracket -> bool)
  (Q : nat -> bracket -> bool) (b : bracket) : bool :=
  if keep_going b then
    match n with
    | O => false
    | S n' =>
        P b (narrowed true b) && P b (narrowed false b)
        && all_paths n' P Q (narrowed true b)
        && all_paths n' P Q (narrowed false b)
    end
  else Q n b.

(** The offsets the loop tracks, in order, each with its classification. *)
Fixpoint tested (fuel : nat) (line : Line) (b : bracket) : list (float * bool) :=
  if keep_going b then
    match fuel with
    | O => []
    | S fuel' =>
        (midpoint b, unstable line (midpoint b)) :: tested fuel' line (bisect_step line b)
    end
  else [].

(** The same tree, carrying the offsets tested on the way (latest first);
    [Q] is asked of the tested offsets and the bracket at each exit. *)
Fixpoint all_histories (n : nat) (Q : list (float * bool) -> bracket -> bool)
  (hist : list (float * bool)) (b : bracket) : bool :=
  if keep_going b then
    match n with
    | O => false
    | S n' =>
        all_histories n' Q ((midpoint b, true) :: hist) (narrowed true b)
        && all_histories n' Q ((midpoint b, false) :: hist) (narrowed false b)
    end
  else Q hist b.

(** [x_unstable] is below every tested offset found unstable, [x_stable]
    above every tested offset found stable. *)
Definition extremal (hist : list (float * bool)) (b : bracket) : bool :=
  forallb (fun tu => if snd tu : bool then (snd b <=? fst tu)%float
                     else (fst tu <=? fst b)%float) hist.

(** What the tree is asked to establish for the locator: each pass narrows
    the bracket, and the loop exits after the last allowed pass with a
    bracket no wider than the tolerance whose lower end is a number. *)
Definition narrows (b b' : bracket) : bool :=
  ((fst b <=? fst b') && (snd b' <=? snd b)
   && (snd b' - fst b' <=? snd b - fst b))%float.

Definition exits_well (n : nat) (b : bracket) : bool :=
  Nat.eqb n 0 && (snd b - fst b <=? 1e-6)%float && (0 <=? fst b)%float
  && narrows b b.

(** ** Real value of a binary64 *)

(** The real number a binary64 stands for; infinities and NaN, which the
    real-valued part of the model does not cover, are read as 0. *)
Definition SF2R (f : spec_float) : R :=
  match f with
  | S754_finite s m e => (IZR (if s then Z.neg m else Z.pos m) * powerRZ 2 e)%R
  | _ => 0%R
  end.

Definition B2R (f : float) : R := SF2R (Prim2SF f).

(** ** NumPy operations, over the reals *)


(** [a[i]] for an index that is not negative. *)
Definition get {A : Type} (a : list A) (i : nat) : outcome A :=
  match nth_error a i with
  | Some v => Ok v
  | None => Raise IndexError
  end.

(** [a[i]] for a Python integer: a negative index counts from the end. *)
Definition py_index {A : Type} (a : list A) (i : Z) : outcome A :=
  let n := Z.of_nat (length a) in
  if (i <? 0)%Z then
    if (i + n <? 0)%Z then Raise IndexError else get a (Z.to_nat (i + n))
  else get a (Z.to_nat i).

(** [a[idx]] for an array of indices. *)
Fixpoint take {A : Type} (a : list A) (idx : list nat) : outcome (list A) :=
  match idx with
  | [] => Ok []
  | i :: idx' => v <- get a i ;; vs <- take a idx' ;; Ok (v :: vs)
  end.

(** [np.argmax]: the scan keeps the first maximum; an empty array raises. *)
Fixpoint argmax_from (best : R) (i_best i : nat) (a : list R) : nat :=
  match a with
  | [] => i_best
  | v :: a' =>
      if Rlt_dec best v then argmax_from v i (S i) a'
      else argmax_from best i_best (S i) a'
  end.

Definition argmax (a : list R) : outcome nat :=
  match a with
  | [] => Raise ValueError
  | v :: a' => Ok (argmax_from v 0 1 a')
  end.

(** [np.argsort]: the indices in ascending order of their keys.  NumPy's
    default sort leaves the order of equal keys open; here they stay in
    index order. *)
Fixpoint insert_by (keys : list R) (i : nat) (sorted : list nat) : list nat :=
  match sorted with
  | [] => [i]
  | j :: sorted' =>
      if Rle_dec (nth i keys 0%R) (nth j keys 0%R) then i :: sorted
      else j :: insert_by keys i sorted'
  end.

Definition argsort (keys : list R) : list nat :=
  fold_right (insert_by keys) [] (seq 0 (length keys)).

(** Complex numbers [re + 1j * im]. *)
Definition C : Type := (R * R)%type.





(** [np.angle]: the argument in (-pi, pi], i.e. [arctan2(im, re)]. *)
Definition arctan2 (y x : R) : R :=
  if Rlt_dec 0 x then atan (y / x)
  else if Rlt_dec x 0 then
         (if Rle_dec 0 y then atan (y / x) + PI else atan (y / x) - PI)%R
  else if Rlt_dec 0 y then (PI / 2)%R
  else if Rlt_dec y 0 then (- PI / 2)%R
  else 0%R.

Definition Cangle (z : C) : R := arctan2 (snd z) (fst z).

(** [x + 1j * px] on arrays of one shape. *)
Definition complex_of (re im : list R) : list C := combine re im.

(** [np.polyfit(xs, ys, deg=1)] on two points: [[slope, intercept]], in
    exact arithmetic.  NumPy divides each column of the Vandermonde matrix
    [[x1, 1], [x2, 1]] by its norm and solves the least-squares problem by
    singular values.  For different abscissas the solution is the line
    through both points.  For equal abscissas other than 0 the matrix has
    rank 1 and the solution of least norm is returned (with a
    [RankWarning]): the line that takes the mean of the ordinates at the
    common abscissa [x] with slope [mean / (2 x)].  For abscissas both 0
    the division by the norm gives NaN and [LinAlgError] is raised.
    (LAPACK also drops a singular value below [2 eps] times the largest,
    which treats as equal two abscissas closer than about 1e-15 of their
    size; like rounding, that cut-off is outside this model.) *)
Definition polyfit1 (xs ys : R * R) : outcome (R * R) :=
  let '(x1, x2) := xs in
  let '(y1, y2) := ys in
  if Req_dec_T x1 x2 then
    if Req_dec_T x1 0 then Raise LinAlgError
    else
      let mean := ((y1 + y2) / 2)%R in
      Ok (mean / (2 * x1), mean / 2)%R
  else
    let slope := ((y2 - y1) / (x2 - x1))%R in
    Ok (slope, (y1 - slope * x1)%R).

(** [np.polyval] for such a pair. *)
Definition polyval1 (p : R * R) (x : R) : R := (fst p * x + snd p)%R.

(** An array of three numbers. *)
Definition Vec3 : Type := (R * R * R)%type.

(** [np.linalg.det([r1, r2, r3])]. *)
Definition det3 (r1 r2 r3 : Vec3) : R :=
  let '(a, b, c) := r1 in
  let '(d, e, f) := r2 in
  let '(g, h, i) := r3 in
  (a * (e * i - f * h) - b * (d * i - f * g) + c * (d * h - e * g))%R.

(** [np.linspace(start, stop, num)] for a step that is not 0. *)
Definition float_of_nat (n : nat) : float :=
  PrimFloat.of_uint63 (Uint63.of_Z (Z.of_nat n)).

Definition linspace (start stop : float) (num : nat) : list float :=
  match num with
  | O => []
  | S O => [start]
  | S div =>
      let step := ((stop - start) / float_of_nat div)%float in
      map (fun i => (float_of_nat i * step + start)%float) (seq 0 div) ++ [stop]
  end.

(** ** NumPy operations, in binary64 *)

(** A binary64 that is neither NaN nor infinite. *)
Definition finite_b64 (f : float) : bool :=
  match Prim2SF f with
  | S754_nan | S754_infinity _ => false
  | _ => true
  end.

(** [np.argmax] of a float array.  The scan replaces the running maximum
    [mp] by [v] unless [v <= mp], which keeps the first maximum; it stops at
    the first NaN, which counts as the maximum.  An empty array raises. *)
Fixpoint argmax_b64_from (mp : float) (i_max i : nat) (a : list float) : nat :=
  match a with
  | [] => i_max
  | v :: a' =>
      if (v <=? mp)%float then argmax_b64_from mp i_max (S i) a'
      else if is_nan v then i
      else argmax_b64_from v i (S i) a'
  end.

Definition argmax_b64 (a : list float) : outcome nat :=
  match a with
  | [] => Raise ValueError
  | v :: a' => Ok (if is_nan v then 0%nat else argmax_b64_from v 0 1 a')
  end.

(** [np.argmin]: the same scan with [v >= mp]. *)
Fixpoint argmin_b64_from (mp : float) (i_min i : nat) (a : list float) : nat :=
  match a with
  | [] => i_min
  | v :: a' =>
      if (mp <=? v)%float then argmin_b64_from mp i_min (S i) a'
      else if is_nan v then i
      else argmin_b64_from v i (S i) a'
  end.

Definition argmin_b64 (a : list float) : outcome nat :=
  match a with
  | [] => Raise ValueError
  | v :: a' => Ok (if is_nan v then 0%nat else argmin_b64_from v 0 1 a')
  end.

(** A [complex128]: real and imaginary part. *)
Definition complex128 : Type := (float * float)%type.

Definition c128_add (z w : complex128) : complex128 :=
  (fst z + fst w, snd z + snd w)%float.

Definition c128_sub (z w : complex128) : complex128 :=
  (fst z - fst w, snd z - snd w)%float.

(** NumPy's product of two complex numbers: four products, one difference
    and one sum, each rounded. *)
Definition c128_mul (z w : complex128) : complex128 :=
  (fst z * fst w - snd z * snd w, fst z * snd w + snd z * fst w)%float.

(** C's [hypot], which [np.abs] calls on a complex: infinite when an
    argument is, else NaN when an argument is, else the square root of the
    exact sum of the squares, rounded once (no overflow or underflow on the
    way).  [x = mx 2^ex] and [y = my 2^ey] give the exact sum
    [x^2 + y^2 = m 2^e] below. *)
Definition hypot (x y : float) : float :=
  match Prim2SF x, Prim2SF y with
  | S754_infinity _, _ | _, S754_infinity _ => infinity
  | S754_nan, _ | _, S754_nan => nan
  | S754_zero _, _ => abs y
  | _, S754_zero _ => abs x
  | S754_finite _ mx ex, S754_finite _ my ey =>
      let e := Z.min (2 * ex) (2 * ey) in
      let m := (Pos.shiftl (mx * mx) (Z.to_N (2 * ex - e))
                + Pos.shiftl (my * my) (Z.to_N (2 * ey - e)))%positive in
      SF2Prim (SFsqrt prec emax (S754_finite false m e))
  end.

Definition np_abs (z : complex128) : float := hypot (fst z) (snd z).

(** [x + 1j * px] on float arrays of one shape: the product by [1j] and
    the sum are complex operations. *)
Definition complex128_of (re im : list float) : list complex128 :=
  map (fun ab => c128_add (fst ab, 0%float) (c128_mul (0%float, 1%float) (snd ab, 0%float)))
      (combine re im).

(** [np.exp(1j * 2 / 3 * np.pi)] and [np.exp(-1j * 2 / 3 * np.pi)]: the
    binary64 cosine and sine of [2.0943951023931953]. *)
Definition rot_plus : complex128 :=
  ((-0.4999999999999998)%float, 0.8660254037844387%float).

Definition rot_minus : complex128 :=
  ((-0.4999999999999998)%float, (-0.8660254037844387)%float).

(** The position [a[i - 3]] reads, for [i - 3 >= -len(a)]: a negative index
    wraps around. *)
Definition three_before (n i : nat) : nat :=
  if (i <? 3)%nat then (i + n - 3)%nat else (i - 3)%nat.

(** ** Boundary characteriser (lines 110-149) *)

(** (a) Slope of the separatrix at the septum, lines 110-115: the closest
    sample is searched in binary64; [septum_limits] is the pair
    [lims_x_separ], [lims_px_separ] of lines 112-113, read in the order of
    the source; and the fit [poly_sep], whose first coefficient is
    [dpx_dx_at_septum], is [np.polyfit] on the real values of the two
    samples read. *)
Definition septum_limits (x_separ px_separ : list float) (i_septum : nat)
  : outcome ((float * float) * (float * float)) :=
  x_before <- py_index x_separ (Z.of_nat i_septum - 3) ;;
  x_after <- py_index x_separ (Z.of_nat i_septum + 3) ;;
  px_before <- py_index px_separ (Z.of_nat i_septum - 3) ;;
  px_after <- py_index px_separ (Z.of_nat i_septum + 3) ;;
  Ok ((x_before, x_after), (px_before, px_after)).

Definition septum_fit (x_septum : float) (x_separ px_separ : list float)
  : outcome (R * R) :=
  i_septum <- argmin_b64 (map (fun x => abs (x - x_septum)%float) x_separ) ;;
  lims <- septum_limits x_separ px_separ i_septum ;;
  let lims_x_separ := fst lims in
  let lims_px_separ := snd lims in
  polyfit1 (B2R (fst lims_x_separ), B2R (snd lims_x_separ))
           (B2R (fst lims_px_separ), B2R (snd lims_px_separ)).

(** (b) The boundary curve, lines 124-133: the four coordinate arrays in
    ascending order of the angle in the normalised plane. *)
Record Boundary : Type := mkBoundary
  { x_triangle : list R; px_triangle : list R;
    x_norm_triangle : list R; px_norm_triangle : list R }.

Definition sort_by_angle (x px x_norm px_norm : list R) : outcome Boundary :=
  let theta_triangle := map Cangle (complex_of x_norm px_norm) in
  let i_sorted := argsort theta_triangle in
  xs <- take x i_sorted ;;
  pxs <- take px i_sorted ;;
  xns <- take x_norm i_sorted ;;
  pxns <- take px_norm i_sorted ;;
  Ok (mkBoundary xs pxs xns pxns).





(** The same search (lines 138-145) as the code runs it, in binary64. *)
Definition mask_near_b64 (z_triangle_norm : list complex128) (z_fp1 rot : complex128)
  (r_fp1 : float) : list bool :=
  map (fun z => (np_abs (c128_sub z (c128_mul z_fp1 rot)) <? 0.2 * r_fp1)%float)
      z_triangle_norm.

(** [r_triangle_norm * mask]: the boolean is cast to 1.0 or 0.0. *)
Definition masked_b64 (r : list float) (mask : list bool) : list float :=
  map (fun rm => (fst rm * (if snd rm : bool then 1 else 0))%float) (combine r mask).

Definition fixed_point_indices_b64 (z_triangle_norm : list complex128)
  : outcome (nat * nat * nat) :=
  let r_triangle_norm := map np_abs z_triangle_norm in
  i_fp1 <- argmax_b64 r_triangle_norm ;;
  z_fp1 <- get z_triangle_norm i_fp1 ;;
  let r_fp1 := np_abs z_fp1 in
  let mask_fp2 := mask_near_b64 z_triangle_norm z_fp1 rot_plus r_fp1 in
  i_fp2 <- argmax_b64 (masked_b64 r_triangle_norm mask_fp2) ;;
  let mask_fp3 := mask_near_b64 z_triangle_norm z_fp1 rot_minus r_fp1 in
  i_fp3 <- argmax_b64 (masked_b64 r_triangle_norm mask_fp3) ;;
  Ok (i_fp1, i_fp2, i_fp3).

(** [z[[i1, i2, i3]]]. *)
Definition pick3 (z : list C) (i : nat * nat * nat) : outcome (C * C * C) :=
  let '(i1, i2, i3) := i in
  z1 <- get z i1 ;; z2 <- get z i2 ;; z3 <- get z i3 ;; Ok (z1, z2, z3).

Definition real3 (z : C * C * C) : Vec3 :=
  let '(z1, z2, z3) := z in (fst z1, fst z2, fst z3).

Definition imag3 (z : C * C * C) : Vec3 :=
  let '(z1, z2, z3) := z in (snd z1, snd z2, snd z3).

Record FixedPoints : Type := mkFixedPoints
  { x_fp : Vec3; px_fp : Vec3; x_norm_fp : Vec3; px_norm_fp : Vec3 }.

(** Lines 146-149: the three selected turns in both coordinate systems. *)
Definition fixed_points_at (z_triangle z_triangle_norm : list C) (i_fp : nat * nat * nat)
  : outcome FixedPoints :=
  z_fp <- pick3 z_triangle i_fp ;;
  z_norm_fp <- pick3 z_triangle_norm i_fp ;;
  Ok (mkFixedPoints (real3 z_fp) (imag3 z_fp) (real3 z_norm_fp) (imag3 z_norm_fp)).


(** The arrays the characteriser reads from the records: [rec.x[0, :]],
    [rec.px[0, :]], [nc.x_norm[0, :]], [nc.px_norm[0, :]]. *)
Definition row0 {A : Type} (a : list (list A)) : outcome (list A) := get a 0.

Definition x_of (r : TrackRecord) : outcome (list R) :=
  fmap (map B2R) (row0 (rec_x r)).

Definition px_of (r : TrackRecord) : outcome (list R) :=
  fmap (map B2R) (row0 (rec_px r)).

Definition x_norm_of (nc : NormalizedRecord) : outcome (list R) :=
  fmap (map B2R) (row0 (map (map NormSample.x_norm) nc)).

Definition px_norm_of (nc : NormalizedRecord) : outcome (list R) :=
  fmap (map B2R) (row0 (map (map NormSample.px_norm) nc)).

(** Lines 124-133 on the records of the trajectory tracked at [x_stable]. *)
Definition triangle_boundary (rec_triangle : TrackRecord) (nc_triangle : NormalizedRecord)
  : outcome Boundary :=
  x <- x_of rec_triangle ;;
  px <- px_of rec_triangle ;;
  x_norm <- x_norm_of nc_triangle ;;
  px_norm <- px_norm_of nc_triangle ;;
  sort_by_angle x px x_norm px_norm.

(** Lines 136-149 on the same records: the three turns are searched in
    binary64 and returned by their real values. *)
Definition triangle_fixed_points (rec_triangle : TrackRecord) (nc_triangle : NormalizedRecord)
  : outcome FixedPoints :=
  x <- x_of rec_triangle ;;
  px <- px_of rec_triangle ;;
  x_norm <- x_norm_of nc_triangle ;;
  px_norm <- px_norm_of nc_triangle ;;
  x_norm_b64 <- row0 (map (map NormSample.x_norm) nc_triangle) ;;
  px_norm_b64 <- row0 (map (map NormSample.px_norm) nc_triangle) ;;
  i_fp <- fixed_point_indices_b64 (complex128_of x_norm_b64 px_norm_b64) ;;
  fixed_points_at (complex_of x px) (complex_of x_norm px_norm) i_fp.

(** ** Area (line 152) *)

Definition area_of (fp : FixedPoints) : R :=
  det3 (x_norm_fp fp) (px_norm_fp fp) (1, 1, 1)%R.

(** ** Plotting (lines 12-40 and 155-192) *)

(** What a figure holds: for each of the two axes, the artists drawn on
    it.  Titles, labels and tick locators carry no data and are left out. *)
Inductive Style : Type := Dots | Solid | Dashed | Stars.

Inductive Artist : Type :=
| Plot (style : Style) (xs ys : list R)
| AxVLine (x : R)
| Text (x y : R).

Record Figure : Type := mkFigure
  { ax_geom : list Artist; ax_norm : list Artist }.

(** [ax_geom.set_ylim(-5e-3, 5e-3)], read back by [ax_geom.get_ylim()]. *)
Definition geom_ylim : float * float := ((-5e-3)%float, 5e-3%float).

(** [ax.plot(a.T, b.T, ".")] for 2-D arrays: one series per particle. *)
Definition plot_rows {S : Type} (fx fy : S -> float) (rows : list (list S)) : list Artist :=
  map (fun row => Plot Dots (map (fun s => B2R (fx s)) row) (map (fun s => B2R (fy s)) row))
      rows.

(** [a[mask_alive]] with [mask_alive = rec.state > 0]: the entries of the
    alive samples, row after row. *)
Definition alive {S : Type} (f : S -> float) (vals : list (list S))
  (rec : TrackRecord) : list R :=
  map (fun vs => B2R (f (fst vs)))
      (filter (fun vs => (0 <? Sample.state (snd vs))%Z)
              (combine (concat vals) (concat rec))).

(** [a[ii::3]]. *)
Fixpoint every_third {A : Type} (skip : nat) (a : list A) : list A :=
  match a with
  | [] => []
  | v :: a' =>
      match skip with
      | O => v :: every_third 2 a'
      | S skip' => every_third skip' a'
      end
  end.

(** The mask [rec.state > 0]. *)
Definition state_mask (rec : TrackRecord) : list (list bool) :=
  map (map (fun s => (0 <? Sample.state s)%Z)) rec.

Definition shape {A : Type} (a : list (list A)) : list nat := map (@length A) a.

(** [a[mask]] for a boolean mask of the shape of [a] (another shape raises
    [IndexError]): the entries at which the mask holds, row after row. *)
Definition bool_index {S : Type} (f : S -> float) (vals : list (list S))
  (mask : list (list bool)) : outcome (list R) :=
  if list_eq_dec Nat.eq_dec (shape vals) (shape mask) then
    Ok (map (fun vm => B2R (f (fst vm)))
            (filter (fun vm => snd vm) (combine (concat vals) (concat mask))))
  else Raise IndexError.

(** [ax.plot(xs, ys, ...)] for two 1-D arrays: matplotlib raises
    [ValueError] when their lengths differ. *)
Definition ax_plot (style : Style) (xs ys : list R) : outcome Artist :=
  if Nat.eqb (length xs) (length ys) then Ok (Plot style xs ys)
  else Raise ValueError.

Definition draw_geom (a : list Artist) (fig : Figure) : Figure :=
  mkFigure (ax_geom fig ++ a) (ax_norm fig).

Definition draw_norm (a : list Artist) (fig : Figure) : Figure :=
  mkFigure (ax_geom fig) (ax_norm fig ++ a).

(** The objects the local variables are bound to; matplotlib's figure
    and axes are opaque. *)
Inductive value : Type :=
| VFloat (v : float)
| VNum (v : R)
| VArray (a : list R)
| VTriple (v : Vec3)
| VPoly (p : R * R)
| VRecord (r : TrackRecord)
| VNormalized (nc : NormalizedRecord)
| VMask (m : list (list bool))
| VInt (i : nat)
| VObject.

(** The local variables, latest binding first. *)
Definition namespace : Type := list (string * value).

Fixpoint lookup (ns : namespace) (name : string) : option value :=
  match ns with
  | [] => None
  | (n, v) :: ns' => if String.eqb n name then Some v else lookup ns' name
  end.

Definition assign (name : string) (v : value) (ns : namespace) : namespace :=
  (name, v) :: ns.

Definition read {A : Type} (as_A : value -> option A) (ns : namespace) (name : string)
  : outcome A :=
  match lookup ns name with
  | None => Raise NameError
  | Some v =>
      match as_A v with
      | Some a => Ok a
      | None => Raise TypeError
      end
  end.

Definition as_float (v : value) : option float :=
  match v with VFloat f => Some f | _ => None end.

Definition as_num (v : value) : option R :=
  match v with VNum r => Some r | _ => None end.

Definition as_array (v : value) : option (list R) :=
  match v with VArray a => Some a | _ => None end.

Definition as_triple (v : value) : option Vec3 :=
  match v with VTriple t => Some t | _ => None end.

Definition as_poly (v : value) : option (R * R) :=
  match v with VPoly p => Some p | _ => None end.

Definition as_record (v : value) : option TrackRecord :=
  match v with VRecord r => Some r | _ => None end.

Definition as_normalized (v : value) : option NormalizedRecord :=
  match v with VNormalized nc => Some nc | _ => None end.

Definition as_mask (v : value) : option (list (list bool)) :=
  match v with VMask m => Some m | _ => None end.

Definition array3 (v : Vec3) : list R := let '(a, b, c) := v in [a; b; c].

(** The state of the plotting branch: the local variables and the figure
    drawn so far. *)
Definition plot_state : Type := (namespace * Figure)%type.

(** A [for] loop over a list. *)
Fixpoint for_each {A S : Type} (body : A -> S -> outcome S) (l : list A) (st : S)
  : outcome S :=
  match l with
  | [] => Ok st
  | a :: l' => st' <- body a st ;; for_each body l' st'
  end.

(** Lines 167-182, the body of [for ii in range(3)]. *)
Definition separatrix_curve (ii : nat) (st : plot_state) : outcome plot_state :=
  let ns := assign "ii" (VInt ii) (fst st) in
  rec_separatrix <- read as_record ns "rec_separatrix" ;;
  mask_alive <- read as_mask ns "mask_alive" ;;
  xs <- bool_index Sample.x rec_separatrix mask_alive ;;
  pxs <- bool_index Sample.px rec_separatrix mask_alive ;;
  geom <- ax_plot Solid (every_third ii xs) (every_third ii pxs) ;;
  norm_separatrix <- read as_normalized ns "norm_separatrix" ;;
  xns <- bool_index NormSample.x_norm norm_separatrix mask_alive ;;
  pxns <- bool_index NormSample.px_norm norm_separatrix mask_alive ;;
  norm <- ax_plot Solid (every_third ii xns) (every_third ii pxns) ;;
  Ok (ns, draw_norm [norm] (draw_geom [geom] (snd st))).

(** Lines 156-192, the plotting branch, statement by statement: it reads
    the local variables by name, binds those of its own and draws.  The
    calls of matplotlib take the arrays handed to them by value. *)
Definition plot_branch (ns : namespace) : outcome plot_state :=
  (* 156: fig, ax_geom, ax_norm = arrange_phase_space_plot() *)
  let ns := assign "ax_norm" VObject (assign "ax_geom" VObject (assign "fig" VObject ns)) in
  let fig := mkFigure [] [] in
  (* 157: ymin, ymax = ax_geom.get_ylim() *)
  let ns := assign "ymax" (VFloat (snd geom_ylim))
                   (assign "ymin" (VFloat (fst geom_ylim)) ns) in
  (* 158-159: the sampled phase space *)
  record <- read as_record ns "record" ;;
  let fig := draw_geom (plot_rows Sample.x Sample.px record) fig in
  norm_coords <- read as_normalized ns "norm_coords" ;;
  let fig := draw_norm (plot_rows NormSample.x_norm NormSample.px_norm norm_coords) fig in
  (* 160-163: the septum *)
  x_septum <- read as_float ns "x_septum" ;;
  let fig := draw_geom [AxVLine (B2R x_septum)] fig in
  ymax <- read as_float ns "ymax" ;;
  let fig := draw_geom [Text (B2R (x_septum * 0.98)%float) (B2R (ymax * 0.95)%float)] fig in
  (* 165: mask_alive = rec_separatrix.state > 0 *)
  rec_separatrix <- read as_record ns "rec_separatrix" ;;
  let ns := assign "mask_alive" (VMask (state_mask rec_separatrix)) ns in
  (* 166-182: the separatrix, one curve for each branch *)
  st <- for_each separatrix_curve (seq 0 3) (ns, fig) ;;
  let ns := fst st in
  let fig := snd st in
  (* 184-185: the slope at the septum *)
  x_septum <- read as_float ns "x_septum" ;;
  let ns := assign "intervale_x_pente"
                   (VArray [B2R (x_septum - 1e-2)%float; B2R (x_septum + 1e-2)%float]) ns in
  intervale_x_pente <- read as_array ns "intervale_x_pente" ;;
  poly_sep <- read as_poly ns "poly_sep" ;;
  slope <- ax_plot Dashed intervale_x_pente (map (polyval1 poly_sep) intervale_x_pente) ;;
  let fig := draw_geom [slope] fig in
  (* 187-188: the limits of the stable triangle *)
  x_triangle <- read as_array ns "x_triangle" ;;
  px_triangle <- read as_array ns "px_triangle" ;;
  triangle_geom <- ax_plot Solid x_triangle px_triangle ;;
  let fig := draw_geom [triangle_geom] fig in
  x_norm_triangle <- read as_array ns "x_norm_triangle" ;;
  px_norm_triangle <- read as_array ns "px_norm_triangle" ;;
  triangle_norm <- ax_plot Solid x_norm_triangle px_norm_triangle ;;
  let fig := draw_norm [triangle_norm] fig in
  (* 190-191: the fixed points *)
  x_fp <- read as_triple ns "x_fp" ;;
  px_fp <- read as_triple ns "px_fp" ;;
  fp_geom <- ax_plot Stars (array3 x_fp) (array3 px_fp) ;;
  let fig := draw_geom [fp_geom] fig in
  x_norm_fp <- read as_triple ns "x_norm_fp" ;;
  px_norm_fp <- read as_triple ns "px_norm_fp" ;;
  fp_norm <- ax_plot Stars (array3 x_norm_fp) (array3 px_norm_fp) ;;
  let fig := draw_norm [fp_norm] fig in
  Ok (ns, fig).

(** ** The function (lines 46-202) *)

Record CharacterizationResult : Type := mkResult
  { stable_area : R;
    dpx_dx_at_septum : R;
    x_fixed_points : Vec3;
    px_fixed_points : Vec3;
    x_norm_fixed_points : Vec3;
    px_norm_fixed_points : Vec3 }.

(** The local variables that the plotting branch or the [return] statement
    reads, as they are bound when line 155 is reached. *)
Definition locals_at_155
  (record : TrackRecord) (norm_coords : NormalizedRecord)
  (rec_separatrix : TrackRecord) (norm_separatrix : NormalizedRecord)
  (poly_sep : R * R) (bnd : Boundary) (fp : FixedPoints) : namespace :=
  [ ("x_septum", VFloat x_septum);
    ("record", VRecord record);
    ("norm_coords", VNormalized norm_coords);
    ("rec_separatrix", VRecord rec_separatrix);
    ("norm_separatrix", VNormalized norm_separatrix);
    ("poly_sep", VPoly poly_sep);
    ("dpx_dx_at_septum", VNum (fst poly_sep));
    ("x_triangle", VArray (x_triangle bnd));
    ("px_triangle", VArray (px_triangle bnd));
    ("x_norm_triangle", VArray (x_norm_triangle bnd));
    ("px_norm_triangle", VArray (px_norm_triangle bnd));
    ("x_fp", VTriple (x_fp fp));
    ("px_fp", VTriple (px_fp fp));
    ("x_norm_fp", VTriple (x_norm_fp fp));
    ("px_norm_fp", VTriple (px_norm_fp fp));
    ("stable_area", VNum (area_of fp)) ]%string.

(** Lines 195-202: the dictionary, built from the local variables. *)
Definition return_dict (ns : namespace) : outcome CharacterizationResult :=
  stable_area <- read as_num ns "stable_area" ;;
  dpx_dx_at_septum <- read as_num ns "dpx_dx_at_septum" ;;
  x_fp <- read as_triple ns "x_fp" ;;
  px_fp <- read as_triple ns "px_fp" ;;
  x_norm_fp <- read as_triple ns "x_norm_fp" ;;
  px_norm_fp <- read as_triple ns "px_norm_fp" ;;
  Ok (mkResult stable_area dpx_dx_at_septum x_fp px_fp x_norm_fp px_norm_fp).

(** The returned dictionary, and the figure when one is drawn. *)
Definition characterize_phase_space (fuel : nat) (line : Line) (plot : bool)
  : outcome (CharacterizationResult * option Figure) :=
  let twiss := twiss4d line in
  (* the sampled phase space, lines 79-85 *)
  let x_gen := linspace 0%float 2.5e-2%float 25 in
  let parts := build_particles x_gen 0%float in
  let record := track line parts 1000 in
  let norm_coords := get_normalized_coordinates twiss record in
  (* the separatrix, lines 88-98 *)
  b <- bisect fuel line bracket0 ;;
  let x_stable := fst b in
  let x_unstable := snd b in
  (* just beyond the limit of stability, lines 102-107 *)
  let rec_separatrix := track line (build_particles [x_unstable] 0%float) num_turns in
  let norm_separatrix := get_normalized_coordinates twiss rec_separatrix in
  (* slope at the septum, lines 110-115 *)
  x_separ <- row0 (rec_x rec_separatrix) ;;
  px_separ <- row0 (rec_px rec_separatrix) ;;
  poly_sep <- septum_fit x_septum x_separ px_separ ;;
  (* just below the limit of stability, lines 118-133 *)
  let rec_triangle := track line (build_particles [x_stable] 0%float) num_turns in
  let nc_triangle := get_normalized_coordinates twiss rec_triangle in
  bnd <- triangle_boundary rec_triangle nc_triangle ;;
  (* fixed points and area, lines 136-152 *)
  fp <- triangle_fixed_points rec_triangle nc_triangle ;;
  let ns := locals_at_155 record norm_coords rec_separatrix norm_separatrix
                          poly_sep bnd fp in
  (* the plot, lines 155-192 *)
  st <- (if plot then st <- plot_branch ns ;; Ok (fst st, Some (snd st))
         else Ok (ns, None)) ;;
  (* the dictionary, lines 195-202 *)
  result <- return_dict (fst st) ;;
  Ok (result, snd st).

(** ** Synthetic trackers *)

(** A tracker with a prescribed classification: a particle launched at an
    offset that [is_unstable] sits at [x = 1], beyond the septum, on every
    turn; any other particle sits at [x = 0].  The optics are the identity. *)
Definition synthetic_sample (is_unstable : float -> bool) (p : Particle) : Sample.t :=
  Sample.mk (if is_unstable (x0 p) then 1%float else 0%float) (px0 p)
            0%float 0%float 0%float 0%float 1%Z.

Definition identity_twiss : TwissTable :=
  mkTwiss (fun s => NormSample.mk (Sample.x s) (Sample.px s)).

Definition synthetic_line (is_unstable : float -> bool) : Line :=
  mkLine identity_twiss
         (fun parts n => map (fun p => repeat (synthetic_sample is_unstable p) n) parts).

(** ** Synthetic trajectories *)

(** A separatrix trajectory of [n] turns that starts on the septum and
    recedes from it by one unit per turn: turn [k] is at [x = x_septum - k]
    (rounded), [px = k]. *)
Definition receding_x (n : nat) : list float :=
  map (fun k => (x_septum - float_of_nat k)%float) (seq 0 n).

Definition receding_px (n : nat) : list float :=
  map float_of_nat (seq 0 n).

(** The same turns in the opposite order: the trajectory approaches the
    septum and its last turn is on it. *)
Definition approaching_x (n : nat) : list float := rev (receding_x n).

Definition approaching_px (n : nat) : list float := rev (receding_px n).

(** ** Vocabulary of the fixed-point properties *)






(** A record of one particle that is lost half way: 500 turns alive, then
    500 turns flagged lost ([state = 0]); and the samples of a row that are
    flagged alive ([state > 0]). *)
Definition alive_sample : Sample.t :=
  Sample.mk 1%float 0%float 0%float 0%float 0%float 0%float 1%Z.

Definition lost_sample : Sample.t :=
  Sample.mk 0%float 0%float 0%float 0%float 0%float 0%float 0%Z.

Definition lost_half_way : TrackRecord :=
  [repeat alive_sample 500 ++ repeat lost_sample 500].

Definition alive_samples (row : list Sample.t) : list Sample.t :=
  filter (fun s => (0 <? Sample.state s)%Z) row.

(** The area of the triangle [a b c] (shoelace formula). *)
Definition triangle_area (a b c : C) : R :=
  (Rabs (fst a * (snd b - snd c) + fst b * (snd c - snd a) + fst c * (snd a - snd b)) / 2)%R.

(** A turn of the trajectory as a point of the physical plane and of the
    normalised plane. *)
Definition z_phys (s : Sample.t) : C := (B2R (Sample.x s), B2R (Sample.px s)).

Definition z_norm (twiss : TwissTable) (s : Sample.t) : C :=
  (B2R (NormSample.x_norm (normalize twiss s)),
   B2R (NormSample.px_norm (normalize twiss s))).

(** The same turn as the search sees it: [x_norm + 1j * px_norm] in
    complex128. *)
Definition z_norm_b64 (twiss : TwissTable) (s : Sample.t) : complex128 :=
  c128_add (NormSample.x_norm (normalize twiss s), 0%float)
           (c128_mul (0%float, 1%float) (NormSample.px_norm (normalize twiss s), 0%float)).

(** A tracker at a third-order resonance: every particle visits three
    points in turn, which the optics (a scaling by 64) normalise to
    (0.875, -0.5), (0, 1) and (-0.875, -0.5); none is beyond the septum. *)
Definition resonant_turn (k : nat) : Sample.t :=
  match (k mod 3)%nat with
  | 0%nat => Sample.mk 0.013671875%float (-0.0078125)%float
                       0%float 0%float 0%float 0%float 1%Z
  | 1%nat => Sample.mk 0%float 0.015625%float 0%float 0%float 0%float 0%float 1%Z
  | _ => Sample.mk (-0.013671875)%float (-0.0078125)%float
                   0%float 0%float 0%float 0%float 1%Z
  end.

Definition resonant_line : Line :=
  mkLine (mkTwiss (fun s => NormSample.mk (Sample.x s * 64)%float (Sample.px s * 64)%float))
         (fun parts n => map (fun _ => map resonant_turn (seq 0 n)) parts).


(** ** Further checks on the tree of the locator *)

(** The bracket lies in the initial one and has a positive width; at the
    exit its width is 0.03 / 2^15 up to rounding. *)
Definition inside (b : bracket) : bool :=
  ((0 <=? fst b) && (fst b <? snd b) && (snd b <=? 0.03))%float.

Definition exits_inside (n : nat) (b : bracket) : bool :=
  inside b
  && ((9.155e-7 <=? snd b - fst b) && (snd b - fst b <=? 9.156e-7))%float.

(** Every tested offset is strictly inside the initial bracket. *)
Definition tested_inside (hist : list (float * bool)) (b : bracket) : bool :=
  forallb (fun tu => ((0 <? fst tu) && (fst tu <? 0.03))%float) hist.

(** Trackers that leave no row, or rows without turns. *)
Definition recordless_line : Line :=
  mkLine identity_twiss (fun _ _ => []).

Definition turnless_line : Line :=
  mkLine identity_twiss (fun parts _ => map (fun _ => []) parts).

(** A trajectory of three turns whose angles in the normalised plane are
    0, 90 and 180 degrees. *)
Definition quarter_turns_x_norm : list R := [1; 0; -1]%R.
Definition quarter_turns_px_norm : list R := [0; 1; 0]%R.

(** ** Vocabulary of the binary64 search *)

Definition is_zero (f : float) : bool :=
  match Prim2SF f with
  | S754_zero _ => true
  | _ => false
  end.

(** The test behind [mask_fp2] ([rot = rot_plus]) and [mask_fp3]
    ([rot = rot_minus]) as the code evaluates it: [w] is within
    [0.2 * np.abs(z_fp1)] of [z_fp1 * rot]. *)
Definition in_disk_b64 (z_fp1 rot w : complex128) : bool :=
  (np_abs (c128_sub w (c128_mul z_fp1 rot)) <? 0.2 * np_abs z_fp1)%float.

(** The order of binary64 numbers, by a key compared lexicographically:
    sign class, exponent, mantissa (the zeros share one key; mantissas are
    canonical, so a larger exponent is a larger magnitude). *)
Definition b64_key (f : spec_float) : Z * Z * Z :=
  match f with
  | S754_nan => (0, 0, 0)%Z
  | S754_zero _ => (0, 0, 0)%Z
  | S754_infinity true => (-2, 0, 0)%Z
  | S754_infinity false => (2, 0, 0)%Z
  | S754_finite true m e => (-1, - e, Z.neg m)%Z
  | S754_finite false m e => (1, e, Z.pos m)%Z
  end.

Definition lex_lt (a b : Z * Z * Z) : Prop :=
  (fst (fst a) < fst (fst b)
   \/ (fst (fst a) = fst (fst b)
       /\ (snd (fst a) < snd (fst b)
           \/ (snd (fst a) = snd (fst b) /\ snd a < snd b))))%Z.

Definition lex_le (a b : Z * Z * Z) : Prop := lex_lt a b \/ a = b.

(** A binary64 that is not NaN. *)
Definition number (f : float) : Prop := is_nan f = false.

Definition b64_le (x y : float) : Prop :=
  lex_le (b64_key (Prim2SF x)) (b64_key (Prim2SF y)).

Definition b64_lt (x y : float) : Prop :=
  lex_lt (b64_key (Prim2SF x)) (b64_key (Prim2SF y)).

(** A trajectory of three turns whose two disks are empty: the turn of
    largest radius is turn 1, at (1, 0). *)
Definition missed_disks : list complex128 :=
  complex128_of [0.5; 1; 0]%float [0; 0; 0.25]%float.

(** A trajectory of two turns, the second at [x_norm = inf]. *)
Definition one_infinite_turn : list complex128 :=
  complex128_of [0.001; infinity]%float [0; 0]%float.

(** A trajectory of seven turns in three clusters, with radii 1, 1.0625
    and about 1.0078: the largest radius is reached at turns 1, 3, 5
    and 6. *)
Definition seven_turns : list complex128 :=
  [(0, 1); (0, 1.0625); (-0.875, -0.5); (-0.9375, -0.5);
   (0.875, -0.5); (0.9375, -0.5); (-0.9375, -0.5)]%float.

(** ** Vocabulary of the clusters *)




(** Three turns, one in each cluster of radius 1, at binary64 points within
    0.01 of the centres. *)
Definition three_turns : list complex128 :=
  [(0, 1); (-0.875, -0.5); (0.875, -0.5)]%float.

(** * Properties *)

(** ** Comparison of binary64 values *)

Lemma SFcompare_swap (a b : spec_float) :
  SFcompare b a = option_map CompOpp (SFcompare a b).
Proof.
  destruct a as [sa|sa| |sa ma ea], b as [sb|sb| |sb mb eb]; simpl;
    repeat match goal with s : bool |- _ => destruct s end; simpl; try reflexivity;
    rewrite (Z.compare_antisym ea eb); destruct (ea ?= eb)%Z; simpl; try reflexivity;
    change (Pos.compare_cont Eq mb ma) with (mb ?= ma)%positive;
    change (Pos.compare_cont Eq ma mb) with (ma ?= mb)%positive;
    rewrite (Pos.compare_antisym ma mb); destruct (ma ?= mb)%positive; reflexivity.
Qed.

(** [a < b] excludes [b <= a]. *)
Lemma ltb_not_leb (a b : float) :
  (a <? b)%float = true -> (b <=? a)%float = false.
Proof.
  rewrite FloatAxioms.ltb_spec, FloatAxioms.leb_spec. unfold SFltb, SFleb.
  rewrite (SFcompare_swap (Prim2SF a) (Prim2SF b)).
  destruct (SFcompare (Prim2SF a) (Prim2SF b)) as [[ | | ]|]; simpl; congruence.
Qed.

Lemma SFcompare_None (a b : spec_float) :
  SFcompare a b = None -> a = S754_nan \/ b = S754_nan.
Proof.
  destruct a, b; simpl; auto; discriminate.
Qed.

(** Between two numbers (neither is NaN: each is comparable with something),
    [not (b <= a)] is [a < b]. *)
Lemma not_leb_ltb (a b c d : float) :
  (c <=? a)%float = true -> (d <? b)%float = true ->
  (b <=? a)%float = false -> (a <? b)%float = true.
Proof.
  rewrite !FloatAxioms.leb_spec, !FloatAxioms.ltb_spec. unfold SFleb, SFltb.
  rewrite (SFcompare_swap (Prim2SF a) (Prim2SF b)).
  intros Hc Hd.
  destruct (SFcompare (Prim2SF a) (Prim2SF b)) as [[ | | ]|] eqn:E; simpl; try congruence.
  exfalso. apply SFcompare_None in E as [E|E]; rewrite E in *.
  - destruct (Prim2SF c); discriminate.
  - destruct (Prim2SF d); discriminate.
Qed.

(** ** The loop follows one path of the tree *)

Lemma bisect_step_narrowed line b :
  bisect_step line b = narrowed (unstable line (midpoint b)) b.
Proof.
  unfold bisect_step, narrowed. now destruct (unstable line (midpoint b)).
Qed.

Lemma passes_S line k b : passes line (S k) b = passes line k (loop_pass line b).
Proof. apply Nat.iter_succ_r. Qed.

Lemma passes_exited line b :
  keep_going b = false -> forall k, passes line k b = b.
Proof.
  intros Hb k. induction k as [|k IH]; [reflexivity|].
  rewrite passes_S.
  replace (loop_pass line b) with b by (unfold loop_pass; now rewrite Hb).
  exact IH.
Qed.

Lemma bisect_exited fuel line b :
  keep_going b = false -> bisect fuel line b = Ok b.
Proof. intros Hb. destruct fuel; simpl; now rewrite Hb. Qed.

Lemma run_in_tree n P Q :
  forall b, all_paths n P Q b = true ->
  forall line, exists j,
    (j <= n)%nat /\
    bisect n line b = Ok (passes line j b) /\
    keep_going (passes line j b) = false /\
    Q (n - j)%nat (passes line j b) = true /\
    (forall i, (i < j)%nat ->
       keep_going (passes line i b) = true /\
       P (passes line i b) (passes line (S i) b) = true) /\
    (forall i, (j <= i)%nat -> passes line i b = passes line j b).
Proof.
  induction n as [|n IH]; intros b H line.
  - simpl in H. destruct (keep_going b) eqn:Hb; [discriminate|].
    exists 0%nat. simpl. rewrite Hb.
    repeat split; auto; try lia.
    intros i _. now apply passes_exited.
  - simpl in H. destruct (keep_going b) eqn:Hb.
    + apply andb_true_iff in H as [H H4]. apply andb_true_iff in H as [H H3].
      apply andb_true_iff in H as [H1 H2].
      assert (Hstep : loop_pass line b = bisect_step line b)
        by (unfold loop_pass; now rewrite Hb).
      assert (Hsub : all_paths n P Q (bisect_step line b) = true
                     /\ P b (bisect_step line b) = true).
      { rewrite bisect_step_narrowed. now destruct (unstable line (midpoint b)). }
      destruct Hsub as [Hsub HP].
      destruct (IH _ Hsub line) as (j & Hj & Hrun & Hexit & HQ & Hbefore & Hafter).
      exists (S j). rewrite !passes_S, Hstep. simpl bisect. rewrite Hb.
      repeat split; auto; try lia.
      * destruct i as [|i]; [assumption|].
        rewrite passes_S, Hstep. apply Hbefore. lia.
      * destruct i as [|i].
        -- change (passes line 1 b) with (loop_pass line b).
           now rewrite Hstep.
        -- rewrite (passes_S line (S i)), (passes_S line i), Hstep.
           apply Hbefore. lia.
      * intros i Hi. destruct i as [|i]; [lia|].
        rewrite passes_S, Hstep. apply Hafter. lia.
    + exists 0%nat. rewrite bisect_exited by assumption. simpl.
      repeat split; auto; try lia.
      intros i _. now apply passes_exited.
Qed.

(** The whole tree of the locator, by evaluation on binary64. *)
Lemma locator_tree : all_paths 15 narrows exits_well bracket0 = true.
Proof. vm_compute. reflexivity. Qed.

Lemma narrows_elim (b b' : bracket) :
  narrows b b' = true ->
  (fst b <=? fst b')%float = true /\ (snd b' <=? snd b)%float = true /\
  (snd b' - fst b' <=? snd b - fst b)%float = true.
Proof.
  unfold narrows. rewrite !andb_true_iff. tauto.
Qed.

Lemma exits_well_elim (n : nat) (b : bracket) :
  exits_well n b = true ->
  n = 0%nat /\ (snd b - fst b <=? 1e-6)%float = true /\
  (0 <=? fst b)%float = true /\ narrows b b = true.
Proof.
  unfold exits_well. rewrite !andb_true_iff, Nat.eqb_eq. tauto.
Qed.

(** Every tracker: 15 passes, each narrowing the bracket. *)
Lemma locator_run (line : Line) :
  bisect 15 line bracket0 = Ok (bracket_at line 15) /\
  keep_going (bracket_at line 15) = false /\
  exits_well 0 (bracket_at line 15) = true /\
  (forall i, (i < 15)%nat ->
     keep_going (bracket_at line i) = true /\
     narrows (bracket_at line i) (bracket_at line (S i)) = true) /\
  (forall i, (15 <= i)%nat -> bracket_at line i = bracket_at line 15).
Proof.
  destruct (run_in_tree 15 narrows exits_well bracket0 locator_tree line)
    as (j & Hj & Hrun & Hexit & HQ & Hbefore & Hafter).
  assert (j = 15)%nat as ->.
  { apply exits_well_elim in HQ as [HQ _]. lia. }
  unfold bracket_at.
  repeat split; auto.
  - apply (Hbefore i); assumption.
  - apply (Hbefore i); assumption.
Qed.

Lemma bisect_more_fuel line n :
  forall b r m, bisect n line b = Ok r -> bisect (n + m) line b = Ok r.
Proof.
  induction n as [|n IH]; intros b r m H; simpl in *.
  - destruct (keep_going b) eqn:Hb; [discriminate|].
    now rewrite bisect_exited.
  - destruct (keep_going b); [now apply IH | assumption].
Qed.

Lemma bisect_short_fuel line n :
  forall b, (forall i, (i <= n)%nat -> keep_going (passes line i b) = true) ->
  bisect n line b = OutOfFuel.
Proof.
  induction n as [|n IH]; intros b H; simpl.
  - assert (Hb : keep_going b = true) by (apply (H 0%nat); lia).
    now rewrite Hb.
  - assert (Hb : keep_going b = true) by (apply (H 0%nat); lia).
    rewrite Hb. apply IH. intros i Hi.
    replace (bisect_step line b) with (loop_pass line b)
      by (unfold loop_pass; now rewrite Hb).
    rewrite <- passes_S. apply H. lia.
Qed.

(** The classification of a synthetic tracker is the prescribed one. *)
Lemma unstable_synthetic (f : float -> bool) (x : float) :
  unstable (synthetic_line f) x = f x.
Proof.
  unfold unstable, synthetic_line, synthetic_sample; simpl.
  destruct (f x); vm_compute; reflexivity.
Qed.

(** The classification is strict: a trajectory that only touches the
    septum is stable. *)
Example touching_the_septum_is_stable :
  any_gt [[0%float; x_septum; 0.01%float]] x_septum = false /\
  any_gt [[0%float; 0.035000000000000010%float]] x_septum = true.
Proof. split; vm_compute; reflexivity. Qed.

(** The ends of the bracket are the initial ones or offsets that were
    tracked and classified. *)
Lemma bracket_ends_classified line k :
  (fst (bracket_at line k) = fst bracket0
   \/ unstable line (fst (bracket_at line k)) = false) /\
  (snd (bracket_at line k) = snd bracket0
   \/ unstable line (snd (bracket_at line k)) = true).
Proof.
  induction k as [|k [IHlo IHhi]]; [split; now left|].
  unfold bracket_at, passes in *. simpl Nat.iter.
  set (b := Nat.iter k (loop_pass line) bracket0) in *.
  unfold loop_pass, bisect_step.
  destruct (keep_going b); [|now split].
  destruct (unstable line (midpoint b)) eqn:Hu; simpl; split; auto.
Qed.

Lemma Ok_inj {A : Type} (a b : A) : Ok a = Ok b -> a = b.
Proof. intros H. now injection H. Qed.

Lemma history_in_tree n Q :
  forall hist b, all_histories n Q hist b = true ->
  forall line, exists b',
    bisect n line b = Ok b' /\ Q (rev (tested n line b) ++ hist) b' = true.
Proof.
  induction n as [|n IH]; intros hist b H line; simpl in *.
  - destruct (keep_going b); [discriminate|]. now exists b.
  - destruct (keep_going b); [|now exists b].
    apply andb_true_iff in H as [Ht Hf].
    assert (Hsub : all_histories n Q
                     ((midpoint b, unstable line (midpoint b)) :: hist)
                     (bisect_step line b) = true).
    { rewrite bisect_step_narrowed. now destruct (unstable line (midpoint b)). }
    destruct (IH _ _ Hsub line) as (b' & Hrun & HQ).
    exists b'. split; [exact Hrun|].
    simpl. now rewrite <- app_assoc.
Qed.

Lemma locator_histories : all_histories 15 extremal [] bracket0 = true.
Proof. vm_compute. reflexivity. Qed.

(** Every tracker: the final bracket against the offsets that were tested. *)
Lemma locator_extremal (line : Line) (t : float) (u : bool) :
  In (t, u) (tested 15 line bracket0) ->
  if u then (snd (bracket_at line 15) <=? t)%float = true
  else (t <=? fst (bracket_at line 15))%float = true.
Proof.
  intros Hin.
  destruct (history_in_tree 15 extremal [] bracket0 locator_histories line)
    as (b' & Hrun & HQ).
  destruct (locator_run line) as (Hrun' & _).
  rewrite Hrun' in Hrun. apply Ok_inj in Hrun. subst b'.
  unfold extremal in HQ. rewrite forallb_forall in HQ.
  specialize (HQ (t, u)). rewrite app_nil_r in HQ.
  specialize (HQ (proj1 (in_rev _ _) Hin)). cbn [fst snd] in HQ.
  destruct u; exact HQ.
Qed.

(** ** Separatrix locator: convergence, termination, monotonic narrowing *)

(** C9.  For every tracker and every pass of the bisection loop, [x_stable]
    does not decrease, [x_unstable] does not increase, and the width of the
    bracket does not grow ([bracket_at line k] is the bracket after [k]
    passes, and stays the final bracket once the loop has exited). *)
Theorem bracket_never_widens (line : Line) (k : nat) :
  (fst (bracket_at line k) <=? fst (bracket_at line (S k)))%float = true /\
  (snd (bracket_at line (S k)) <=? snd (bracket_at line k))%float = true /\
  (snd (bracket_at line (S k)) - fst (bracket_at line (S k))
     <=? snd (bracket_at line k) - fst (bracket_at line k))%float = true.
Proof.
  destruct (locator_run line) as (_ & _ & Hexit & Hbefore & Hafter).
  assert (H : narrows (bracket_at line k) (bracket_at line (S k)) = true).
  { destruct (le_lt_dec 15 k) as [Hk|Hk].
    - rewrite (Hafter k), (Hafter (S k)) by lia.
      apply exits_well_elim in Hexit as (_ & _ & _ & Hexit). exact Hexit.
    - apply Hbefore. exact Hk. }
  exact (narrows_elim _ _ H).
Qed.

(** C4, as the code has it.  For every tracker the loop exits after exactly
    15 passes: the loop test holds before each of the first 15 passes and
    fails after the 15th, so a budget of 14 passes is exhausted and any
    budget of 15 or more returns the bracket reached after 15 passes. *)
Theorem bisect_exits_after_15_passes (line : Line) :
  bisect 15 line bracket0 = Ok (bracket_at line 15) /\
  bisect 14 line bracket0 = OutOfFuel /\
  (forall extra, bisect (15 + extra) line bracket0 = Ok (bracket_at line 15)) /\
  (forall k, keep_going (bracket_at line k) = (k <? 15)%nat).
Proof.
  destruct (locator_run line) as (Hrun & Hstop & _ & Hbefore & Hafter).
  repeat split.
  - exact Hrun.
  - apply bisect_short_fuel. intros i Hi. apply Hbefore. lia.
  - intros extra. now apply bisect_more_fuel.
  - intros k. destruct (Nat.ltb_spec k 15) as [Hk|Hk].
    + now apply Hbefore.
    + now rewrite (Hafter k Hk).
Qed.

(** C4, refuted.  The tracker that never reports instability makes the loop
    exit after 15 passes with [x_unstable] still 0.03, and no tracker that
    never reports instability keeps the loop running. *)
Lemma bisect_exits_without_instability :
  (forall x, unstable (synthetic_line (fun _ => false)) x = false) /\
  bisect 15 (synthetic_line (fun _ => false)) bracket0
    = Ok (0.02999908447265625%float, 0.03%float) /\
  ~ (exists line : Line,
        (forall x, unstable line x = false) /\
        (forall fuel, bisect fuel line bracket0 = OutOfFuel)).
Proof.
  split; [|split].
  - intros x. apply unstable_synthetic.
  - vm_compute. reflexivity.
  - intros (line & _ & Hloop).
    destruct (locator_run line) as (Hrun & _).
    rewrite Hloop in Hrun. discriminate.
Qed.

(** C1, as the code has it.  For every tracker whose classification has a
    single boundary [xstar] (offsets [x >= xstar] are unstable, the others
    stable) with [0 < xstar <= 0.03], the loop exits (after 15 passes) with
    [x_stable < xstar <= x_unstable] and [x_unstable - x_stable <= 1e-6];
    [x_unstable] is classified unstable and [x_stable], less than the
    tolerance below it, stable; no tested offset found unstable is below
    [x_unstable] and none found stable is above [x_stable]. *)
Theorem bisect_brackets_boundary (line : Line) (xstar : float) :
  (forall x, unstable line x = (xstar <=? x)%float) ->
  (0 <? xstar)%float = true ->
  (xstar <=? 0.03)%float = true ->
  exists x_stable x_unstable,
    bisect 15 line bracket0 = Ok (x_stable, x_unstable) /\
    (x_stable <? xstar)%float = true /\
    (xstar <=? x_unstable)%float = true /\
    (x_unstable - x_stable <=? 1e-6)%float = true /\
    unstable line x_unstable = true /\
    unstable line x_stable = false /\
    (forall t u, In (t, u) (tested 15 line bracket0) ->
       if u then (x_unstable <=? t)%float = true
       else (t <=? x_stable)%float = true).
Proof.
  intros Hcls Hpos Hin.
  pose proof (locator_extremal line) as Hext.
  destruct (locator_run line) as (Hrun & _ & Hexit & _).
  destruct (bracket_ends_classified line 15) as [Hlo Hhi].
  apply exits_well_elim in Hexit as (_ & Hwidth & Hnum & _).
  destruct (bracket_at line 15) as [lo hi] eqn:Hb.
  cbn [fst snd] in Hwidth, Hnum, Hlo, Hhi, Hext.
  assert (Hhi' : (xstar <=? hi)%float = true).
  { destruct Hhi as [->|Hhi]; [exact Hin | now rewrite <- Hcls]. }
  assert (Hlo' : (lo <? xstar)%float = true).
  { destruct Hlo as [->|Hlo]; [exact Hpos|].
    rewrite Hcls in Hlo. exact (not_leb_ltb lo xstar 0 0 Hnum Hpos Hlo). }
  exists lo, hi. repeat split; auto.
  - now rewrite Hcls.
  - rewrite Hcls. now apply ltb_not_leb.
Qed.

Lemma bisect_brackets_boundary_witness :
  exists x_stable x_unstable,
    bisect 15 (synthetic_line (fun x => (0.02 <=? x)%float)) bracket0
      = Ok (x_stable, x_unstable) /\
    (x_stable <? 0.02)%float = true /\
    (0.02 <=? x_unstable)%float = true /\
    (x_unstable - x_stable <=? 1e-6)%float = true /\
    unstable (synthetic_line (fun x => (0.02 <=? x)%float)) x_unstable = true /\
    unstable (synthetic_line (fun x => (0.02 <=? x)%float)) x_stable = false /\
    (forall t u,
       In (t, u) (tested 15 (synthetic_line (fun x => (0.02 <=? x)%float)) bracket0) ->
       if u then (x_unstable <=? t)%float = true
       else (t <=? x_stable)%float = true).
Proof.
  apply (bisect_brackets_boundary
           (synthetic_line (fun x => (0.02 <=? x)%float)) 0.02%float).
  - intros x. apply unstable_synthetic.
  - reflexivity.
  - reflexivity.
Defined.

(** C1, refuted at the lower end of the bracket.  When every offset from 0
    on is unstable the boundary is [xstar = 0], inside [[0, 0.03]]; the loop
    returns [x_stable = 0], the initial value it never tracked, and
    [x_stable < xstar] fails. *)
Lemma bisect_boundary_at_zero :
  (forall x, unstable (synthetic_line (fun x => (0 <=? x)%float)) x = (0 <=? x)%float) /\
  (0 <=? 0)%float = true /\ (0 <=? 0.03)%float = true /\
  bisect 15 (synthetic_line (fun x => (0 <=? x)%float)) bracket0
    = Ok (0%float, 9.1552734374999997e-07%float) /\
  (0 <? 0)%float = false.
Proof.
  split; [|repeat split; vm_compute; reflexivity].
  intros x. apply (unstable_synthetic (fun x => (0 <=? x)%float)).
Qed.

(** ** The NumPy model on small inputs *)

Example linspace_sampler :
  length (linspace 0%float 2.5e-2%float 25) = 25%nat /\
  nth 0 (linspace 0%float 2.5e-2%float 25) 0%float = 0%float /\
  nth 1 (linspace 0%float 2.5e-2%float 25) 0%float = 0.0010416666666666667%float /\
  nth 24 (linspace 0%float 2.5e-2%float 25) 0%float = 2.5e-2%float.
Proof. repeat split; vm_compute; reflexivity. Qed.

Example py_index_examples :
  py_index [10; 20; 30; 40]%Z 3 = Ok 40%Z /\
  py_index [10; 20; 30; 40]%Z (-3) = Ok 20%Z /\
  py_index [10; 20; 30; 40]%Z 4 = Raise IndexError /\
  py_index [10; 20; 30; 40]%Z (-5) = Raise IndexError.
Proof. repeat split; reflexivity. Qed.

Example every_third_examples :
  every_third 0 [0; 1; 2; 3; 4; 5; 6]%nat = [0; 3; 6]%nat /\
  every_third 1 [0; 1; 2; 3; 4; 5; 6]%nat = [1; 4]%nat /\
  every_third 2 [0; 1; 2; 3; 4; 5; 6]%nat = [2; 5]%nat.
Proof. repeat split; reflexivity. Qed.

Ltac decide_reals :=
  repeat match goal with
         | |- context [Rlt_dec ?a ?b] => destruct (Rlt_dec a b); try lra
         | |- context [Rle_dec ?a ?b] => destruct (Rle_dec a b); try lra
         end.

Example argmax_first_maximum : argmax [1; 3; 3; 2]%R = Ok 1%nat.
Proof. simpl. decide_reals. reflexivity. Qed.

Example argsort_example : argsort [3; 1; 2]%R = [1; 2; 0]%nat.
Proof. unfold argsort. simpl. repeat (decide_reals; simpl). reflexivity. Qed.

Example det3_example : det3 (2, 0, 0)%R (0, 3, 0)%R (0, 0, 4)%R = 24%R.
Proof. simpl. ring. Qed.

Example polyfit1_examples :
  polyfit1 (1, 3)%R (2, 6)%R = Ok (2, 0)%R /\
  polyfit1 (0.002, 0.002)%R (0, 2)%R = Ok (250, 0.5)%R /\
  polyfit1 (0, 0)%R (0, 2)%R = Raise LinAlgError.
Proof.
  unfold polyfit1. repeat split.
  - destruct (Req_dec_T 1 3); [lra|]. cbv zeta. f_equal. f_equal; lra.
  - destruct (Req_dec_T 0.002 0.002); [|lra].
    destruct (Req_dec_T 0.002 0); [lra|]. cbv zeta. f_equal. f_equal; lra.
  - destruct (Req_dec_T 0 0); [|lra]. destruct (Req_dec_T 0 0); [reflexivity | lra].
Qed.

Example argmax_b64_examples :
  argmax_b64 [1; 3; 3; 2]%float = Ok 1%nat /\
  argmax_b64 [1; nan; 5; nan]%float = Ok 1%nat /\
  argmax_b64 [0; 0.001 * 0; infinity * 0]%float = Ok 2%nat /\
  argmax_b64 [] = Raise ValueError.
Proof. repeat split. Qed.

Example argmin_b64_examples :
  argmin_b64 [2; 1; 3; 1]%float = Ok 1%nat /\
  argmin_b64 [2; nan; 1]%float = Ok 1%nat /\
  argmin_b64 [] = Raise ValueError.
Proof. repeat split. Qed.

Example hypot_examples :
  hypot 3 4 = 5%float /\
  hypot 0.28 0.96 = 1%float /\
  hypot 1e200 1e200 = 1.414213562373095e+200%float /\
  hypot 0 (-0.5) = 0.5%float /\
  hypot infinity nan = infinity /\
  is_nan (hypot nan 1) = true.
Proof. repeat split; vm_compute; reflexivity. Qed.

(** Two turns of radius 1 in binary64, the first by rounding: the search
    keeps the first. *)
Example ties_keep_the_first_turn :
  map np_abs (complex128_of [0.28; 1]%float [0.96; 0]%float) = [1; 1]%float /\
  fixed_point_indices_b64 (complex128_of [0.28; 1]%float [0.96; 0]%float)
  = Ok (0, 0, 0)%nat.
Proof. split; vm_compute; reflexivity. Qed.

(** ** NumPy operations: what they return *)

Lemma bind_Ok {A B : Type} (m : outcome A) (k : A -> outcome B) (b : B) :
  bind m k = Ok b -> exists a, m = Ok a /\ k a = Ok b.
Proof.
  destruct m as [a| |]; simpl; intros H; try discriminate. now exists a.
Qed.

Lemma get_Ok {A : Type} (a : list A) (i : nat) (v : A) :
  get a i = Ok v <-> nth_error a i = Some v.
Proof.
  unfold get. destruct (nth_error a i); split; intros H; inversion H; reflexivity.
Qed.

Lemma get_in_range {A : Type} (a : list A) (i : nat) :
  (i < length a)%nat -> exists v, get a i = Ok v.
Proof.
  intros H. unfold get. destruct (nth_error a i) as [v|] eqn:E; [now exists v|].
  apply nth_error_None in E. lia.
Qed.

Lemma get_out_of_range {A : Type} (a : list A) (i : nat) :
  (length a <= i)%nat -> get a i = Raise IndexError.
Proof.
  intros H. unfold get. now rewrite (proj2 (nth_error_None a i) H).
Qed.





(** ** Binary64 constants as fractions *)

(** A binary64 with a negative exponent is a fraction of a power of 2. *)
Lemma SF2R_fraction (s : bool) (m e : positive) :
  SF2R (S754_finite s m (Z.neg e))
  = (IZR (if s then Z.neg m else Z.pos m) / IZR (Z.pow_pos 2 e))%R.
Proof.
  unfold SF2R, Rdiv. f_equal.
  change (Z.neg e) with (- Z.pos e)%Z.
  now rewrite powerRZ_neg', Zpower_pos_powerRZ.
Qed.

(** [b2r c]: replace [B2R c], for a binary64 constant [c] of negative
    exponent, by the fraction it stands for. *)
Ltac b2r c :=
  let sf := eval vm_compute in (Prim2SF c) in
  change (B2R c) with (SF2R sf);
  rewrite SF2R_fraction;
  match goal with
  | |- context [Z.pow_pos 2 ?e] =>
      let p := eval vm_compute in (Z.pow_pos 2 e) in
      change (Z.pow_pos 2 e) with p
  end.

Lemma B2R_zero : B2R 0%float = 0%R.
Proof. reflexivity. Qed.


(** ** Slope at the septum (lines 110-115) *)

Lemma py_index_after {A : Type} (a : list A) (i : nat) :
  py_index a (Z.of_nat i + 3) = get a (i + 3).
Proof.
  unfold py_index.
  destruct (Z.ltb_spec (Z.of_nat i + 3) 0) as [H|H]; [lia|].
  f_equal. lia.
Qed.

Lemma py_index_before {A : Type} (a : list A) (i : nat) :
  (3 <= i + length a)%nat ->
  py_index a (Z.of_nat i - 3) = get a (three_before (length a) i).
Proof.
  intros Hn. unfold py_index, three_before.
  destruct (Nat.ltb_spec i 3) as [Hi|Hi].
  - destruct (Z.ltb_spec (Z.of_nat i - 3) 0) as [H|H]; [|lia].
    destruct (Z.ltb_spec (Z.of_nat i - 3 + Z.of_nat (length a)) 0) as [H'|H']; [lia|].
    f_equal. lia.
  - destruct (Z.ltb_spec (Z.of_nat i - 3) 0) as [H|H]; [lia|].
    f_equal. lia.
Qed.

Lemma get_nth (a : list R) (i : nat) :
  (i < length a)%nat -> get a i = Ok (nth i a 0%R).
Proof.
  intros H. apply get_Ok. now apply nth_error_nth'.
Qed.

Lemma get_nth_b64 (a : list float) (i : nat) :
  (i < length a)%nat -> get a i = Ok (nth i a 0%float).
Proof.
  intros H. apply get_Ok. now apply nth_error_nth'.
Qed.

(** [np.polyfit] raises [LinAlgError] or nothing. *)
Lemma polyfit1_raises (xs ys : R * R) (e : exn) :
  polyfit1 xs ys = Raise e -> e = LinAlgError.
Proof.
  destruct xs as [x1 x2], ys as [y1 y2]. unfold polyfit1.
  destruct (Req_dec_T x1 x2); [destruct (Req_dec_T x1 0)|]; intros H;
    inversion H; reflexivity.
Qed.

Lemma polyfit1_completes (xs ys : R * R) : polyfit1 xs ys <> OutOfFuel.
Proof.
  destruct xs as [x1 x2], ys as [y1 y2]. unfold polyfit1.
  destruct (Req_dec_T x1 x2); [destruct (Req_dec_T x1 0)|]; discriminate.
Qed.

(** Through two points of different abscissas the fit is the line through
    both points. *)
Lemma polyfit1_distinct (x1 x2 y1 y2 : R) :
  x1 <> x2 ->
  polyfit1 (x1, x2) (y1, y2)
  = Ok ((y2 - y1) / (x2 - x1), y1 - (y2 - y1) / (x2 - x1) * x1)%R.
Proof.
  intros H. unfold polyfit1. destruct (Req_dec_T x1 x2); [contradiction | reflexivity].
Qed.

(** The two reads on each array, once the closest sample is known. *)
Lemma septum_limits_cases (x_separ px_separ : list float) (i_septum : nat) :
  length px_separ = length x_separ ->
  ((length x_separ <= i_septum + 3)%nat ->
   septum_limits x_separ px_separ i_septum = Raise IndexError) /\
  ((i_septum + 3 < length x_separ)%nat ->
   let before := three_before (length x_separ) i_septum in
   let after := (i_septum + 3)%nat in
   septum_limits x_separ px_separ i_septum
   = Ok ((nth before x_separ 0%float, nth after x_separ 0%float),
         (nth before px_separ 0%float, nth after px_separ 0%float))).
Proof.
  intros Hlen. unfold septum_limits.
  rewrite !py_index_after. split.
  - intros Hend.
    destruct (py_index x_separ (Z.of_nat i_septum - 3)) as [v|e|] eqn:Hb; cbn [bind].
    + now rewrite get_out_of_range.
    + unfold py_index, get in Hb.
      repeat match type of Hb with
             | context [if ?c then _ else _] => destruct c
             | context [match ?c with _ => _ end] => destruct c
             end; try discriminate; inversion Hb; reflexivity.
    + unfold py_index, get in Hb.
      repeat match type of Hb with
             | context [if ?c then _ else _] => destruct c
             | context [match ?c with _ => _ end] => destruct c
             end; discriminate.
  - intros Hin.
    assert (Hbefore : (three_before (length x_separ) i_septum < length x_separ)%nat).
    { unfold three_before. destruct (Nat.ltb_spec i_septum 3); lia. }
    rewrite !py_index_before by lia. rewrite Hlen.
    rewrite !get_nth_b64 by (try rewrite Hlen; assumption). reflexivity.
Qed.

(** What the fit does once the closest sample is known. *)
Lemma septum_fit_cases (x_septum : float) (x_separ px_separ : list float) (i_septum : nat) :
  length px_separ = length x_separ ->
  argmin_b64 (map (fun x => abs (x - x_septum)%float) x_separ) = Ok i_septum ->
  ((length x_separ <= i_septum + 3)%nat ->
   septum_fit x_septum x_separ px_separ = Raise IndexError) /\
  ((i_septum + 3 < length x_separ)%nat ->
   let before := three_before (length x_separ) i_septum in
   let after := (i_septum + 3)%nat in
   septum_fit x_septum x_separ px_separ
   = polyfit1 (B2R (nth before x_separ 0%float), B2R (nth after x_separ 0%float))
              (B2R (nth before px_separ 0%float), B2R (nth after px_separ 0%float))).
Proof.
  intros Hlen Hmin. unfold septum_fit. rewrite Hmin. cbn [bind].
  destruct (septum_limits_cases x_separ px_separ i_septum Hlen) as [Hend Hin].
  split.
  - intros H. now rewrite (Hend H).
  - intros H. cbv zeta in Hin |- *. now rewrite (Hin H).
Qed.

(** C7, as the code has it.  With [i_septum] the sample closest to the
    septum, the access to the samples 3 places before and after it (lines
    112-113) raises an out-of-range error exactly when [i_septum] is within
    3 of the END of the trajectory ([i_septum + 3 >= length]).  Everywhere
    else, the first three positions included, nothing is raised by the
    access: both samples are read, the one before by wrapping around when
    [i_septum < 3].  The fit as a whole raises [IndexError] in the same
    cases and no other, whatever [np.polyfit] does with the samples. *)
Theorem septum_fit_raises_at_the_end
  (x_septum : float) (x_separ px_separ : list float) (i_septum : nat) :
  length px_separ = length x_separ ->
  argmin_b64 (map (fun x => abs (x - x_septum)%float) x_separ) = Ok i_septum ->
  (septum_limits x_separ px_separ i_septum = Raise IndexError
   <-> (length x_separ <= i_septum + 3)%nat) /\
  ((i_septum + 3 < length x_separ)%nat ->
   septum_limits x_separ px_separ i_septum
   = Ok ((nth (three_before (length x_separ) i_septum) x_separ 0%float,
          nth (i_septum + 3) x_separ 0%float),
         (nth (three_before (length x_separ) i_septum) px_separ 0%float,
          nth (i_septum + 3) px_separ 0%float))) /\
  (septum_fit x_septum x_separ px_separ = Raise IndexError
   <-> (length x_separ <= i_septum + 3)%nat).
Proof.
  intros Hlen Hmin.
  destruct (septum_limits_cases x_separ px_separ i_septum Hlen) as [Lend Lin].
  destruct (septum_fit_cases x_septum x_separ px_separ i_septum Hlen Hmin)
    as [Hend Hin].
  split; [split|split; [|split]].
  - intros Hraise. destruct (le_lt_dec (length x_separ) (i_septum + 3)) as [H|H];
      [assumption|]. rewrite (Lin H) in Hraise. discriminate.
  - exact Lend.
  - exact Lin.
  - intros Hraise. destruct (le_lt_dec (length x_separ) (i_septum + 3)) as [H|H];
      [assumption|]. rewrite (Hin H) in Hraise.
    apply polyfit1_raises in Hraise. discriminate.
  - exact Hend.
Qed.

Lemma argmin_receding : 
  argmin_b64 (map (fun x => abs (x - x_septum)%float) (receding_x 1000)) = Ok 0%nat.
Proof. vm_compute. reflexivity. Qed.

Lemma argmin_approaching :
  argmin_b64 (map (fun x => abs (x - x_septum)%float) (approaching_x 1000)) = Ok 999%nat.
Proof. vm_compute. reflexivity. Qed.

(** On 1000 turns that approach the septum the closest sample is the last
    one, turn 999: the read of turn 1002 raises. *)
Lemma septum_fit_raises_at_the_end_witness :
  septum_limits (approaching_x 1000) (approaching_px 1000) 999 = Raise IndexError /\
  septum_fit x_septum (approaching_x 1000) (approaching_px 1000) = Raise IndexError.
Proof.
  assert (Hlen : length (approaching_x 1000) = 1000%nat).
  { unfold approaching_x, receding_x. now rewrite length_rev, length_map, length_seq. }
  destruct (septum_fit_raises_at_the_end x_septum (approaching_x 1000)
              (approaching_px 1000) 999) as (H1 & _ & H3).
  - rewrite Hlen. unfold approaching_px, receding_px.
    now rewrite length_rev, length_map, length_seq.
  - exact argmin_approaching.
  - split; [apply H1 | apply H3]; rewrite Hlen; lia.
Defined.

(** C7, refuted at the start of the trajectory.  On 1000 turns whose first
    sample is the closest to the septum ([i_septum = 0]), no error is
    raised: index [-3] wraps around to turn 997 and the fit, which goes
    through turns 997 and 3, is returned. *)
Lemma septum_fit_wraps_at_the_start :
  argmin_b64 (map (fun x => abs (x - x_septum)%float) (receding_x 1000)) = Ok 0%nat /\
  septum_limits (receding_x 1000) (receding_px 1000) 0
  = Ok ((x_septum - 997, x_septum - 3), (997, 3))%float /\
  septum_fit x_septum (receding_x 1000) (receding_px 1000)
  = polyfit1 (B2R (x_septum - 997)%float, B2R (x_septum - 3)%float)
             (B2R 997%float, B2R 3%float) /\
  exists poly_sep,
    septum_fit x_septum (receding_x 1000) (receding_px 1000) = Ok poly_sep.
Proof.
  split; [exact argmin_receding|].
  split; [vm_compute; reflexivity|].
  assert (Hlen : length (receding_x 1000) = 1000%nat)
    by (unfold receding_x; now rewrite length_map, length_seq).
  destruct (septum_fit_cases x_septum (receding_x 1000) (receding_px 1000) 0) as [_ Hin].
  - unfold receding_x, receding_px. now rewrite !length_map.
  - exact argmin_receding.
  - specialize (Hin ltac:(rewrite Hlen; lia)). rewrite Hlen in Hin.
    change (three_before 1000 0) with 997%nat in Hin. change (0 + 3)%nat with 3%nat in Hin.
    assert (E997 : nth 997 (receding_x 1000) 0%float = (x_septum - 997)%float)
      by (vm_compute; reflexivity).
    assert (E3 : nth 3 (receding_x 1000) 0%float = (x_septum - 3)%float)
      by (vm_compute; reflexivity).
    assert (P997 : nth 997 (receding_px 1000) 0%float = 997%float)
      by (vm_compute; reflexivity).
    assert (P3 : nth 3 (receding_px 1000) 0%float = 3%float)
      by (vm_compute; reflexivity).
    cbv zeta in Hin. rewrite E997, E3, P997, P3 in Hin.
    split; [exact Hin|].
    rewrite Hin.
    b2r (x_septum - 997)%float. b2r (x_septum - 3)%float.
    b2r 997%float. b2r 3%float.
    rewrite polyfit1_distinct by lra.
    eexists. reflexivity.
Qed.

(** ** Complex numbers *)






Lemma sqrt3_sqr : (sqrt 3 * sqrt 3 = 3)%R.
Proof. apply sqrt_sqrt. lra. Qed.








(** ** Fixed-point detection (lines 136-149), in exact arithmetic *)





(** ** The order of binary64 numbers and [np.argmax] *)

Lemma is_nan_spec (x : float) : is_nan x = false <-> Prim2SF x <> S754_nan.
Proof.
  unfold is_nan. rewrite FloatAxioms.eqb_spec.
  destruct (Prim2SF x) as [s|s| |s m e]; simpl.
  - split; [discriminate | reflexivity].
  - split; [discriminate|]. intros _. now destruct s.
  - split; [discriminate | congruence].
  - unfold SFeqb. simpl. destruct s; rewrite Z.compare_refl;
      change (Pos.compare_cont Eq m m) with (m ?= m)%positive;
      rewrite Pos.compare_refl; (split; [discriminate | reflexivity]).
Qed.

Lemma SFcompare_key (a b : spec_float) :
  a <> S754_nan -> b <> S754_nan ->
  match SFcompare a b with
  | Some Lt => lex_lt (b64_key a) (b64_key b)
  | Some Eq => b64_key a = b64_key b
  | Some Gt => lex_lt (b64_key b) (b64_key a)
  | None => False
  end.
Proof.
  intros Ha Hb.
  destruct a as [sa|sa| |sa ma ea], b as [sb|sb| |sb mb eb]; try congruence;
    simpl; repeat match goal with s : bool |- _ => destruct s end; simpl;
    unfold lex_lt; simpl; try reflexivity; try lia;
    change (Pos.compare_cont Eq ma mb) with (ma ?= mb)%positive;
    destruct (Z.compare_spec ea eb); try (simpl; lia);
    destruct (Pos.compare_spec ma mb); simpl; subst; try reflexivity; lia.
Qed.

Lemma leb_true (x y : float) :
  number x -> number y -> (x <=? y)%float = true -> b64_le x y.
Proof.
  unfold number, b64_le, lex_le. rewrite !is_nan_spec, FloatAxioms.leb_spec. intros Hx Hy.
  pose proof (SFcompare_key _ _ Hx Hy) as H. unfold SFleb.
  destruct (SFcompare (Prim2SF x) (Prim2SF y)) as [[ | | ]|]; intros E;
    try discriminate; auto.
Qed.

Lemma leb_false (x y : float) :
  number x -> number y -> (x <=? y)%float = false -> b64_lt y x.
Proof.
  unfold number, b64_lt. rewrite !is_nan_spec, FloatAxioms.leb_spec. intros Hx Hy.
  pose proof (SFcompare_key _ _ Hx Hy) as H. unfold SFleb.
  destruct (SFcompare (Prim2SF x) (Prim2SF y)) as [[ | | ]|]; intros E;
    try discriminate; tauto.
Qed.

Lemma lex_lt_irrefl (a : Z * Z * Z) : ~ lex_lt a a.
Proof. unfold lex_lt. lia. Qed.

Lemma lex_lt_asym (a b : Z * Z * Z) : lex_lt a b -> ~ lex_lt b a.
Proof. unfold lex_lt. lia. Qed.

Lemma b64_le_leb (x y : float) :
  number x -> number y -> b64_le x y -> (x <=? y)%float = true.
Proof.
  intros Hx Hy H. destruct (x <=? y)%float eqn:E; [reflexivity|]. exfalso.
  apply (leb_false x y Hx Hy) in E. unfold b64_lt in E.
  destruct H as [H|H].
  - exact (lex_lt_asym _ _ H E).
  - unfold b64_le in H. rewrite H in E. exact (lex_lt_irrefl _ E).
Qed.

Lemma b64_lt_ltb (x y : float) :
  number x -> number y -> b64_lt x y -> (x <? y)%float = true.
Proof.
  unfold number, b64_lt. rewrite !is_nan_spec, FloatAxioms.ltb_spec. intros Hx Hy H.
  pose proof (SFcompare_key _ _ Hx Hy) as K. unfold SFltb.
  destruct (SFcompare (Prim2SF x) (Prim2SF y)) as [[ | | ]|]; try reflexivity; exfalso.
  - rewrite K in H. exact (lex_lt_irrefl _ H).
  - exact (lex_lt_asym _ _ H K).
  - exact K.
Qed.

Lemma b64_le_lt_trans (x y z : float) : b64_le x y -> b64_lt y z -> b64_lt x z.
Proof.
  unfold b64_le, b64_lt, lex_le. intros [H|H] H'; [|now rewrite H].
  unfold lex_lt in *. lia.
Qed.

Lemma b64_lt_le (x y : float) : b64_lt x y -> b64_le x y.
Proof. now left. Qed.

Lemma b64_le_refl (x : float) : b64_le x x.
Proof. now right. Qed.

(** The scan of [np.argmax] on numbers: either the running maximum stands,
    or the result is the first position of a strictly larger maximum. *)
Lemma argmax_b64_from_spec (a : list float) :
  (forall v, In v a -> number v) ->
  forall mp i_max i,
    number mp ->
    (argmax_b64_from mp i_max i a = i_max /\ forall u, In u a -> b64_le u mp) \/
    (exists j v,
        argmax_b64_from mp i_max i a = (i + j)%nat /\
        nth_error a j = Some v /\ b64_lt mp v /\
        (forall u, In u a -> b64_le u v) /\
        forall j' u, (j' < j)%nat -> nth_error a j' = Some u -> b64_lt u v).
Proof.
  induction a as [|w a IH]; intros Ha mp i_max i Hmp; simpl.
  - left. split; [reflexivity | intros u []].
  - assert (Hw : number w) by (apply Ha; now left).
    assert (Ha' : forall v, In v a -> number v) by (intros v Hv; apply Ha; now right).
    destruct (w <=? mp)%float eqn:E.
    + apply (leb_true w mp Hw Hmp) in E.
      destruct (IH Ha' mp i_max (S i) Hmp)
        as [[Hk Hall] | (j & v & Hk & Hv & Hbv & Hall & Hfirst)].
      * left. split; [exact Hk|]. intros u [<-|Hu]; auto.
      * right. exists (S j), v. rewrite Hk. repeat split; auto; try lia.
        -- intros u [<-|Hu]; auto. apply b64_lt_le. exact (b64_le_lt_trans _ _ _ E Hbv).
        -- intros [|j'] u Hj' Hu; simpl in Hu.
           ++ injection Hu as <-. exact (b64_le_lt_trans _ _ _ E Hbv).
           ++ apply (Hfirst j' u); [lia | assumption].
    + apply (leb_false w mp Hw Hmp) in E. rewrite Hw.
      destruct (IH Ha' w i (S i) Hw)
        as [[Hk Hall] | (j & v & Hk & Hv & Hbv & Hall & Hfirst)].
      * right. exists 0%nat, w. rewrite Hk, Nat.add_0_r. repeat split; auto.
        -- intros u [<-|Hu]; [apply b64_le_refl | auto].
        -- intros j' u Hj'. lia.
      * right. exists (S j), v. rewrite Hk. repeat split; auto; try lia.
        -- unfold b64_lt in *. unfold lex_lt in *. lia.
        -- intros u [<-|Hu]; auto. now apply b64_lt_le.
        -- intros [|j'] u Hj' Hu; simpl in Hu.
           ++ injection Hu as <-. exact Hbv.
           ++ apply (Hfirst j' u); [lia | assumption].
Qed.

(** On an array of numbers [np.argmax] returns the first position of the
    maximum. *)
Lemma argmax_b64_spec (a : list float) (k : nat) :
  (forall v, In v a -> number v) ->
  argmax_b64 a = Ok k ->
  exists v, nth_error a k = Some v /\
            (forall u, In u a -> (u <=? v)%float = true) /\
            forall j u, (j < k)%nat -> nth_error a j = Some u -> (u <? v)%float = true.
Proof.
  destruct a as [|w a]; simpl; intros Ha H; [discriminate|].
  apply Ok_inj in H.
  assert (Hw : number w) by (apply Ha; now left).
  assert (Ha' : forall v, In v a -> number v) by (intros v Hv; apply Ha; now right).
  rewrite Hw in H. subst k.
  destruct (argmax_b64_from_spec a Ha' w 0%nat 1%nat Hw)
    as [[Hk Hall] | (j & v & Hk & Hv & Hbv & Hall & Hfirst)]; rewrite Hk.
  - exists w. repeat split.
    + intros u [<-|Hu]; apply b64_le_leb; auto. apply b64_le_refl.
    + intros j u Hj. lia.
  - assert (Hnv : number v) by (apply Ha'; eapply nth_error_In; eassumption).
    exists v. simpl. repeat split; auto.
    + intros u [<-|Hu]; apply b64_le_leb; auto. now apply b64_lt_le.
    + intros [|j'] u Hj' Hu; simpl in Hu.
      * injection Hu as <-. now apply b64_lt_ltb.
      * apply b64_lt_ltb; auto.
        -- apply Ha'. eapply nth_error_In; eassumption.
        -- apply (Hfirst j' u); [lia | assumption].
Qed.

(** A binary64 times 1.0 is itself. *)
Lemma digits2_shift (m : positive) (n : nat) :
  Z.pos (digits2_pos (Nat.iter n xO m)) = (Z.pos (digits2_pos m) + Z.of_nat n)%Z.
Proof.
  induction n as [|n IH]; [simpl; lia|].
  rewrite Nat.iter_succ. cbn [digits2_pos]. rewrite Pos2Z.inj_succ, IH. lia.
Qed.

Lemma mul_one_finite (s : bool) (m : positive) (e : Z) :
  valid_binary (S754_finite s m e) = true ->
  SF64mul (S754_finite s m e) (Prim2SF 1%float) = S754_finite s m e.
Proof.
  intros Hv. change (Prim2SF 1%float) with (S754_finite false 4503599627370496 (-52)).
  unfold SF64mul, SFmul. rewrite xorb_false_r.
  rewrite Pos.mul_comm.
  change (4503599627370496 * m)%positive with (Nat.iter 52 xO m).
  unfold valid_binary, bounded, canonical_mantissa in Hv.
  apply andb_true_iff in Hv as [Hc Hb]. apply Z.eqb_eq in Hc.
  unfold binary_round_aux, shr_fexp.
  unfold Zdigits2. rewrite digits2_shift.
  replace (Z.pos (digits2_pos m) + Z.of_nat 52 + (e + -52))%Z
    with (Z.pos (digits2_pos m) + e)%Z by lia.
  rewrite Hc. replace (e - (e + -52))%Z with 52%Z by lia.
  change (shr (shr_record_of_loc (Z.pos (Nat.iter 52 xO m)) loc_Exact) (e + -52) 52)
    with (Build_shr_record (Z.pos m) false false, (e + -52 + 52)%Z).
  cbn [shr_m loc_of_shr_record round_nearest_even shr_record_of_loc].
  replace (e + -52 + 52)%Z with e by lia.
  rewrite Hc, Z.sub_diag. cbn [shr shr_m]. now rewrite Hb.
Qed.

Lemma mul_one (r : float) : (r * 1)%float = r.
Proof.
  apply Prim2SF_inj. rewrite FloatAxioms.mul_spec.
  pose proof (Prim2SF_valid r) as Hv.
  destruct (Prim2SF r) as [s|s| |s m e].
  - now destruct s.
  - now destruct s.
  - reflexivity.
  - now apply mul_one_finite.
Qed.

(** ** Fixed-point detection (lines 138-145), in binary64 *)

Lemma argmax_b64_from_bound (a : list float) :
  forall mp i_max i,
    (i_max < i)%nat -> (argmax_b64_from mp i_max i a < i + length a)%nat.
Proof.
  induction a as [|v a IH]; intros mp i_max i Hi; simpl; [lia|].
  destruct (v <=? mp)%float.
  - specialize (IH mp i_max (S i)). lia.
  - destruct (is_nan v); [lia|]. specialize (IH v i (S i)). lia.
Qed.

(** [np.argmax] returns a position of the array. *)
Lemma argmax_b64_bound (a : list float) (i : nat) :
  argmax_b64 a = Ok i -> (i < length a)%nat.
Proof.
  destruct a as [|v a]; simpl; intros H; [discriminate|].
  apply Ok_inj in H. subst i.
  destruct (is_nan v); [lia|].
  pose proof (argmax_b64_from_bound a v 0 1). lia.
Qed.

Lemma argmax_b64_total (a : list float) :
  a <> [] -> exists i, argmax_b64 a = Ok i.
Proof.
  destruct a as [|v a]; [congruence|]. intros _. simpl. eauto.
Qed.

Lemma length_masked_b64 (r : list float) (mask : list bool) :
  length mask = length r -> length (masked_b64 r mask) = length r.
Proof.
  intros H. unfold masked_b64. rewrite length_map.
  transitivity (Nat.min (length r) (length mask)); [apply length_combine | lia].
Qed.

(** On a trajectory that is not empty the search returns three of its
    turns. *)
Lemma fixed_point_indices_b64_total (z : list complex128) :
  z <> [] ->
  exists i1 i2 i3,
    fixed_point_indices_b64 z = Ok (i1, i2, i3) /\
    (i1 < length z)%nat /\ (i2 < length z)%nat /\ (i3 < length z)%nat.
Proof.
  intros Hz. unfold fixed_point_indices_b64.
  assert (Hr : map np_abs z <> []) by (destruct z; [congruence | discriminate]).
  destruct (argmax_b64_total _ Hr) as [i1 Hi1]. rewrite Hi1. cbn [bind].
  pose proof (argmax_b64_bound _ _ Hi1) as Hb1. rewrite length_map in Hb1.
  destruct (get_in_range z i1 Hb1) as [z1 Hz1]. rewrite Hz1. cbn [bind].
  assert (Hm : forall rot,
             exists i, argmax_b64 (masked_b64 (map np_abs z)
                                     (mask_near_b64 z z1 rot (np_abs z1))) = Ok i /\
                       (i < length z)%nat).
  { intros rot.
    assert (Hlen : length (masked_b64 (map np_abs z) (mask_near_b64 z z1 rot (np_abs z1)))
                   = length z).
    { rewrite length_masked_b64; unfold mask_near_b64; now rewrite !length_map. }
    destruct (argmax_b64_total
                (masked_b64 (map np_abs z) (mask_near_b64 z z1 rot (np_abs z1))))
      as [i Hi].
    { intros E. rewrite E in Hlen. destruct z; [congruence | discriminate]. }
    exists i. split; [exact Hi|]. rewrite <- Hlen. exact (argmax_b64_bound _ _ Hi). }
  destruct (Hm rot_plus) as (i2 & Hi2 & Hb2). rewrite Hi2. cbn [bind].
  destruct (Hm rot_minus) as (i3 & Hi3 & Hb3). rewrite Hi3. cbn [bind].
  exists i1, i2, i3. auto.
Qed.

(** [r_triangle_norm * mask] turn by turn. *)
Lemma masked_b64_as_map (z : list complex128) (z1 rot : complex128) :
  masked_b64 (map np_abs z) (mask_near_b64 z z1 rot (np_abs z1))
  = map (fun w => (np_abs w * (if in_disk_b64 z1 rot w then 1 else 0))%float) z.
Proof.
  unfold masked_b64, mask_near_b64, in_disk_b64.
  induction z as [|w z IH]; simpl; [reflexivity|]. now rewrite IH.
Qed.

(** A finite number times 0.0 is a zero; an infinity or a NaN times 0.0 is
    NaN. *)
Lemma mul_zero_finite (r : float) :
  finite_b64 r = true -> is_zero (r * 0)%float = true.
Proof.
  unfold finite_b64, is_zero. rewrite FloatAxioms.mul_spec.
  change (Prim2SF 0%float) with (S754_zero false).
  destruct (Prim2SF r); simpl; intros H; try discriminate; reflexivity.
Qed.

Lemma zero_leb_zero (a b : float) :
  is_zero a = true -> is_zero b = true -> (a <=? b)%float = true.
Proof.
  unfold is_zero. rewrite FloatAxioms.leb_spec.
  destruct (Prim2SF a), (Prim2SF b); intros Ha Hb; try discriminate; reflexivity.
Qed.

Lemma zero_not_nan (a : float) : is_zero a = true -> is_nan a = false.
Proof.
  unfold is_zero, is_nan. rewrite FloatAxioms.eqb_spec.
  destruct (Prim2SF a); intros Ha; try discriminate; reflexivity.
Qed.

(** [np.argmax] of an array of zeros is position 0. *)
Lemma argmax_b64_from_zeros (a : list float) :
  forall mp i_max i,
    is_zero mp = true -> (forall v, In v a -> is_zero v = true) ->
    argmax_b64_from mp i_max i a = i_max.
Proof.
  induction a as [|v a IH]; intros mp i_max i Hmp Ha; simpl; [reflexivity|].
  rewrite (zero_leb_zero v mp (Ha v (or_introl eq_refl)) Hmp).
  apply IH; [exact Hmp|]. intros u Hu. apply Ha. now right.
Qed.

Lemma argmax_b64_zeros (a : list float) :
  a <> [] -> (forall v, In v a -> is_zero v = true) -> argmax_b64 a = Ok 0%nat.
Proof.
  destruct a as [|v a]; [congruence|]. intros _ Ha. simpl.
  rewrite (zero_not_nan v) by (apply Ha; now left).
  rewrite argmax_b64_from_zeros; [reflexivity | apply Ha; now left |].
  intros u Hu. apply Ha. now right.
Qed.

(** When the mask is empty and every radius is finite, the masked radii
    are zeros and the search falls back to turn 0. *)
Lemma mask_miss_b64 (z : list complex128) (z1 rot : complex128) :
  z <> [] ->
  (forall w, In w z -> finite_b64 (np_abs w) = true) ->
  (forall w, In w z -> in_disk_b64 z1 rot w = false) ->
  argmax_b64 (masked_b64 (map np_abs z) (mask_near_b64 z z1 rot (np_abs z1))) = Ok 0%nat.
Proof.
  intros Hz Hfin Hout. rewrite masked_b64_as_map.
  apply argmax_b64_zeros.
  - destruct z; [congruence | discriminate].
  - intros v Hv. apply in_map_iff in Hv as (w & <- & Hw).
    rewrite (Hout w Hw). apply mul_zero_finite. now apply Hfin.
Qed.

Lemma Some_inj {A : Type} (a b : A) : Some a = Some b -> a = b.
Proof. now intros [=]. Qed.

Lemma finite_is_number (f : float) : finite_b64 f = true -> number f.
Proof.
  unfold finite_b64, number. intros H. apply is_nan_spec. intros E.
  rewrite E in H. discriminate.
Qed.

(** The three searches of lines 138-145, one by one. *)
Lemma fixed_point_indices_b64_inv (z : list complex128) (i1 i2 i3 : nat) :
  fixed_point_indices_b64 z = Ok (i1, i2, i3) ->
  exists z1,
    argmax_b64 (map np_abs z) = Ok i1 /\
    nth_error z i1 = Some z1 /\
    argmax_b64 (masked_b64 (map np_abs z) (mask_near_b64 z z1 rot_plus (np_abs z1)))
    = Ok i2 /\
    argmax_b64 (masked_b64 (map np_abs z) (mask_near_b64 z z1 rot_minus (np_abs z1)))
    = Ok i3.
Proof.
  unfold fixed_point_indices_b64. intros Hi.
  apply bind_Ok in Hi as (k1 & Hk1 & Hi).
  apply bind_Ok in Hi as (z1 & Hz1 & Hi).
  apply bind_Ok in Hi as (k2 & Hk2 & Hi).
  apply bind_Ok in Hi as (k3 & Hk3 & Hi).
  apply Ok_inj in Hi. injection Hi as -> -> ->.
  exists z1. repeat split; try assumption. now apply get_Ok.
Qed.

(** When no radius is NaN, [np.argmax(r_triangle_norm)] is the first turn of
    largest radius. *)
Lemma argmax_radius_spec (z : list complex128) (i1 : nat) (z1 : complex128) :
  (forall w, In w z -> number (np_abs w)) ->
  argmax_b64 (map np_abs z) = Ok i1 ->
  nth_error z i1 = Some z1 ->
  (forall w, In w z -> (np_abs w <=? np_abs z1)%float = true) /\
  (forall j w, (j < i1)%nat -> nth_error z j = Some w ->
               (np_abs w <? np_abs z1)%float = true).
Proof.
  intros Hnum Hi Hz1.
  destruct (argmax_b64_spec (map np_abs z) i1) as (v & Hv & Hmax & Hfirst).
  - intros v Hv. apply in_map_iff in Hv as (w & <- & Hw). now apply Hnum.
  - exact Hi.
  - rewrite nth_error_map, Hz1 in Hv. cbn in Hv. injection Hv as <-. split.
    + intros w Hw. apply Hmax. now apply in_map.
    + intros j w Hj Hw. apply (Hfirst j); [exact Hj|].
      now rewrite nth_error_map, Hw.
Qed.

(** C6, as the code has it.  On a trajectory (not empty) whose radii
    [np.abs] are all finite, the fixed-point search does not signal
    failure: it returns three turns, the first being a turn [z1] of largest
    radius; and when no sample passes the test of the +120 degree disk
    (respectively -120 degree disk) around the rotation of [z1], as the
    code evaluates it, the second (respectively third) turn is turn 0. *)
Theorem mask_miss_selects_index_0 (z : list complex128) :
  z <> [] ->
  (forall w, In w z -> finite_b64 (np_abs w) = true) ->
  exists i1 i2 i3 z1,
    fixed_point_indices_b64 z = Ok (i1, i2, i3) /\
    nth_error z i1 = Some z1 /\
    (forall w, In w z -> (np_abs w <=? np_abs z1)%float = true) /\
    ((forall w, In w z -> in_disk_b64 z1 rot_plus w = false) -> i2 = 0%nat) /\
    ((forall w, In w z -> in_disk_b64 z1 rot_minus w = false) -> i3 = 0%nat).
Proof.
  intros Hz Hfin.
  destruct (fixed_point_indices_b64_total z Hz) as (i1 & i2 & i3 & Hi & _).
  destruct (fixed_point_indices_b64_inv z i1 i2 i3 Hi) as (z1 & Hk1 & Hz1 & Hk2 & Hk3).
  exists i1, i2, i3, z1. split; [exact Hi|]. split; [exact Hz1|]. split; [|split].
  - apply (argmax_radius_spec z i1 z1); try assumption.
    intros w Hw. apply finite_is_number. now apply Hfin.
  - intros Hout. rewrite (mask_miss_b64 z z1 rot_plus Hz Hfin Hout) in Hk2.
    now apply Ok_inj in Hk2.
  - intros Hout. rewrite (mask_miss_b64 z z1 rot_minus Hz Hfin Hout) in Hk3.
    now apply Ok_inj in Hk3.
Qed.

Lemma mask_miss_selects_index_0_witness :
  exists i1 i2 i3,
    fixed_point_indices_b64 missed_disks = Ok (i1, i2, i3) /\
    i1 = 1%nat /\ i2 = 0%nat /\ i3 = 0%nat.
Proof.
  assert (Hall : forall (P : complex128 -> Prop),
             P (0.5, 0)%float -> P (1, 0)%float -> P (0, 0.25)%float ->
             forall w, In w missed_disks -> P w).
  { intros P H0 H1 H2 w Hw. vm_compute in Hw.
    destruct Hw as [<-|[<-|[<-|[]]]]; assumption. }
  destruct (mask_miss_selects_index_0 missed_disks)
    as (i1 & i2 & i3 & z1 & Hi & Hz1 & _ & H2 & H3).
  - discriminate.
  - apply Hall; vm_compute; reflexivity.
  - assert (E1 : i1 = 1%nat).
    { assert (E : fixed_point_indices_b64 missed_disks = Ok (1, 0, 0)%nat)
        by (vm_compute; reflexivity).
      rewrite E in Hi. apply Ok_inj in Hi. now injection Hi. }
    subst i1.
    assert (z1 = (1, 0)%float) as ->.
    { vm_compute in Hz1. now injection Hz1. }
    exists 1%nat, i2, i3. split; [exact Hi|]. split; [reflexivity|]. split.
    + apply H2. apply Hall; vm_compute; reflexivity.
    + apply H3. apply Hall; vm_compute; reflexivity.
Defined.

(** C6, refuted.  On two turns normalised to (0.001, 0) and (inf, 0) the
    turn of largest radius is turn 1 and no sample passes the test of
    either disk, but [r_triangle_norm * mask] is [0.0, nan] and [np.argmax]
    returns turn 1, not turn 0, for the second and for the third fixed
    point. *)
Lemma mask_miss_selects_a_nan_turn :
  nth_error one_infinite_turn 1 = Some (infinity, 0%float) /\
  mask_near_b64 one_infinite_turn (infinity, 0%float) rot_plus
                (np_abs (infinity, 0%float)) = [false; false] /\
  mask_near_b64 one_infinite_turn (infinity, 0%float) rot_minus
                (np_abs (infinity, 0%float)) = [false; false] /\
  fixed_point_indices_b64 one_infinite_turn = Ok (1, 1, 1)%nat.
Proof. repeat split; vm_compute; reflexivity. Qed.

(** ** Three clusters under the 120-degree symmetry *)








Lemma pick3_total (z : list C) (i1 i2 i3 : nat) :
  (i1 < length z)%nat -> (i2 < length z)%nat -> (i3 < length z)%nat ->
  exists p1 p2 p3,
    pick3 z (i1, i2, i3) = Ok (p1, p2, p3) /\
    nth_error z i1 = Some p1 /\ nth_error z i2 = Some p2 /\ nth_error z i3 = Some p3.
Proof.
  intros H1 H2 H3.
  destruct (get_in_range z i1 H1) as [p1 Hp1].
  destruct (get_in_range z i2 H2) as [p2 Hp2].
  destruct (get_in_range z i3 H3) as [p3 Hp3].
  exists p1, p2, p3. unfold pick3. rewrite Hp1, Hp2, Hp3. cbn [bind].
  rewrite get_Ok in Hp1, Hp2, Hp3. auto.
Qed.














(** On [three_turns] the search as the code runs it, in binary64, returns
    one turn of each cluster too: turn 1 (the first of the two of largest
    radius), then turn 2 and turn 0. *)
Lemma three_turns_b64 : fixed_point_indices_b64 three_turns = Ok (1, 2, 0)%nat.
Proof. vm_compute. reflexivity. Qed.

(** ** Boundary curve (lines 124-133) *)

Lemma insert_by_perm (keys : list R) (i : nat) (sorted : list nat) :
  Permutation (insert_by keys i sorted) (i :: sorted).
Proof.
  induction sorted as [|j sorted IH]; simpl; [apply Permutation_refl|].
  destruct (Rle_dec (nth i keys 0%R) (nth j keys 0%R)).
  - apply Permutation_refl.
  - rewrite IH. apply perm_swap.
Qed.

(** [np.argsort] returns every position exactly once. *)
Lemma argsort_perm (keys : list R) :
  Permutation (argsort keys) (seq 0 (length keys)).
Proof.
  unfold argsort. induction (seq 0 (length keys)) as [|i l IH]; simpl.
  - apply Permutation_refl.
  - rewrite insert_by_perm. now apply perm_skip.
Qed.

Lemma take_in_range (a : list R) (idx : list nat) :
  (forall i, In i idx -> (i < length a)%nat) ->
  take a idx = Ok (map (fun i => nth i a 0%R) idx).
Proof.
  induction idx as [|i idx IH]; intros H; simpl; [reflexivity|].
  rewrite get_nth by (apply H; now left). cbn [bind].
  rewrite IH by (intros j Hj; apply H; now right). reflexivity.
Qed.

Lemma map_nth_seq (a : list R) :
  map (fun i => nth i a 0%R) (seq 0 (length a)) = a.
Proof.
  apply nth_ext with (d := 0%R) (d' := 0%R).
  - now rewrite length_map, length_seq.
  - intros n Hn. rewrite length_map, length_seq in Hn.
    rewrite (nth_indep _ 0%R (nth 0 a 0%R)) by (now rewrite length_map, length_seq).
    rewrite (map_nth (fun i => nth i a 0%R) (seq 0 (length a)) 0%nat n).
    now rewrite seq_nth.
Qed.

(** Arrays of one length are reordered together, by one permutation of all
    their positions. *)
Lemma sort_by_angle_all (x px x_norm px_norm : list R) :
  length px = length x -> length x_norm = length x -> length px_norm = length x ->
  exists i_sorted,
    Permutation i_sorted (seq 0 (length x)) /\
    sort_by_angle x px x_norm px_norm
    = Ok (mkBoundary (map (fun i => nth i x 0%R) i_sorted)
                     (map (fun i => nth i px 0%R) i_sorted)
                     (map (fun i => nth i x_norm 0%R) i_sorted)
                     (map (fun i => nth i px_norm 0%R) i_sorted)).
Proof.
  intros Hpx Hxn Hpxn. unfold sort_by_angle.
  set (theta := map Cangle (complex_of x_norm px_norm)).
  assert (Hlen : length theta = length x).
  { unfold theta, complex_of. rewrite length_map.
    transitivity (Nat.min (length x_norm) (length px_norm));
      [apply length_combine | lia]. }
  pose proof (argsort_perm theta) as Hperm. rewrite Hlen in Hperm.
  exists (argsort theta). split; [exact Hperm|].
  assert (Hrange : forall i, In i (argsort theta) -> (i < length x)%nat).
  { intros i Hi. apply (Permutation_in _ Hperm) in Hi. apply in_seq in Hi. lia. }
  rewrite !take_in_range by (try rewrite Hpx; try rewrite Hxn; try rewrite Hpxn; exact Hrange).
  reflexivity.
Qed.

(** The arrays read from a record and from its normalisation. *)
Lemma arrays_of_record (twiss : TwissTable) (rec_triangle : TrackRecord)
  (row : list Sample.t) :
  row0 rec_triangle = Ok row ->
  x_of rec_triangle = Ok (map (fun s => B2R (Sample.x s)) row) /\
  px_of rec_triangle = Ok (map (fun s => B2R (Sample.px s)) row) /\
  x_norm_of (get_normalized_coordinates twiss rec_triangle)
  = Ok (map (fun s => B2R (NormSample.x_norm (normalize twiss s))) row) /\
  px_norm_of (get_normalized_coordinates twiss rec_triangle)
  = Ok (map (fun s => B2R (NormSample.px_norm (normalize twiss s))) row).
Proof.
  destruct rec_triangle as [|r rest]; [discriminate|].
  intros H. inversion H; subst r.
  unfold x_of, px_of, x_norm_of, px_norm_of, rec_x, rec_px, get_normalized_coordinates;
    simpl; rewrite !map_map; auto.
Qed.

Lemma triangle_boundary_all (twiss : TwissTable) (rec_triangle : TrackRecord)
  (row : list Sample.t) :
  row0 rec_triangle = Ok row ->
  exists bnd i_sorted,
    triangle_boundary rec_triangle (get_normalized_coordinates twiss rec_triangle) = Ok bnd /\
    Permutation i_sorted (seq 0 (length row)) /\
    x_triangle bnd
    = map (fun i => nth i (map (fun s => B2R (Sample.x s)) row) 0%R) i_sorted /\
    px_triangle bnd
    = map (fun i => nth i (map (fun s => B2R (Sample.px s)) row) 0%R) i_sorted /\
    x_norm_triangle bnd
    = map (fun i => nth i (map (fun s => B2R (NormSample.x_norm (normalize twiss s))) row)
                        0%R) i_sorted /\
    px_norm_triangle bnd
    = map (fun i => nth i (map (fun s => B2R (NormSample.px_norm (normalize twiss s))) row)
                        0%R) i_sorted.
Proof.
  intros Hrow.
  destruct (arrays_of_record twiss rec_triangle row Hrow) as (Hx & Hpx & Hxn & Hpxn).
  unfold triangle_boundary. rewrite Hx, Hpx, Hxn, Hpxn. cbn [bind].
  destruct (sort_by_angle_all
              (map (fun s => B2R (Sample.x s)) row)
              (map (fun s => B2R (Sample.px s)) row)
              (map (fun s => B2R (NormSample.x_norm (normalize twiss s))) row)
              (map (fun s => B2R (NormSample.px_norm (normalize twiss s))) row))
    as (i_sorted & Hperm & Hsort); try (now rewrite !length_map).
  rewrite length_map in Hperm.
  eexists. exists i_sorted. split; [exact Hsort|]. simpl. auto.
Qed.

(** C5, as the code has it.  No sample of the triangle trajectory is
    discarded: whatever the state flags, the sorted boundary holds every
    turn of the trajectory exactly once, the four coordinate arrays being
    reordered by one permutation [i_sorted] of all the turns. *)
Theorem boundary_keeps_every_sample (twiss : TwissTable) (rec_triangle : TrackRecord)
  (row : list Sample.t) :
  row0 rec_triangle = Ok row ->
  exists bnd i_sorted,
    triangle_boundary rec_triangle (get_normalized_coordinates twiss rec_triangle) = Ok bnd /\
    Permutation i_sorted (seq 0 (length row)) /\
    x_triangle bnd
    = map (fun i => nth i (map (fun s => B2R (Sample.x s)) row) 0%R) i_sorted /\
    px_triangle bnd
    = map (fun i => nth i (map (fun s => B2R (Sample.px s)) row) 0%R) i_sorted /\
    x_norm_triangle bnd
    = map (fun i => nth i (map (fun s => B2R (NormSample.x_norm (normalize twiss s))) row)
                        0%R) i_sorted /\
    px_norm_triangle bnd
    = map (fun i => nth i (map (fun s => B2R (NormSample.px_norm (normalize twiss s))) row)
                        0%R) i_sorted /\
    Permutation (x_triangle bnd) (map (fun s => B2R (Sample.x s)) row) /\
    length (x_triangle bnd) = length row.
Proof.
  intros Hrow.
  destruct (triangle_boundary_all twiss rec_triangle row Hrow)
    as (bnd & i_sorted & Hb & Hperm & Hx & Hpx & Hxn & Hpxn).
  exists bnd, i_sorted. repeat split; auto.
  - rewrite Hx.
    eapply Permutation_trans; [apply Permutation_map; exact Hperm|].
    rewrite <- (length_map (fun s => B2R (Sample.x s)) row), map_nth_seq.
    apply Permutation_refl.
  - rewrite Hx, length_map. rewrite (Permutation_length Hperm). apply length_seq.
Qed.

Lemma boundary_keeps_every_sample_witness :
  exists bnd i_sorted,
    triangle_boundary lost_half_way
      (get_normalized_coordinates identity_twiss lost_half_way) = Ok bnd /\
    Permutation i_sorted
      (seq 0 (length (repeat alive_sample 500 ++ repeat lost_sample 500))) /\
    x_triangle bnd
    = map (fun i => nth i (map (fun s => B2R (Sample.x s))
                               (repeat alive_sample 500 ++ repeat lost_sample 500)) 0%R)
          i_sorted /\
    px_triangle bnd
    = map (fun i => nth i (map (fun s => B2R (Sample.px s))
                               (repeat alive_sample 500 ++ repeat lost_sample 500)) 0%R)
          i_sorted /\
    x_norm_triangle bnd
    = map (fun i => nth i (map (fun s => B2R (NormSample.x_norm (normalize identity_twiss s)))
                               (repeat alive_sample 500 ++ repeat lost_sample 500)) 0%R)
          i_sorted /\
    px_norm_triangle bnd
    = map (fun i => nth i (map (fun s => B2R (NormSample.px_norm (normalize identity_twiss s)))
                               (repeat alive_sample 500 ++ repeat lost_sample 500)) 0%R)
          i_sorted /\
    Permutation (x_triangle bnd)
      (map (fun s => B2R (Sample.x s)) (repeat alive_sample 500 ++ repeat lost_sample 500)) /\
    length (x_triangle bnd) = length (repeat alive_sample 500 ++ repeat lost_sample 500).
Proof.
  apply (boundary_keeps_every_sample identity_twiss lost_half_way).
  reflexivity.
Defined.

(** C5, refuted.  For a particle flagged lost from turn 500 on, only 500 of
    the 1000 samples are alive, yet the sorted boundary has all 1000. *)
Lemma boundary_keeps_lost_samples :
  length (alive_samples (repeat alive_sample 500 ++ repeat lost_sample 500)) = 500%nat /\
  exists bnd,
    triangle_boundary lost_half_way
      (get_normalized_coordinates identity_twiss lost_half_way) = Ok bnd /\
    length (x_triangle bnd) = 1000%nat.
Proof.
  split; [vm_compute; reflexivity|].
  destruct (triangle_boundary_all identity_twiss lost_half_way
              (repeat alive_sample 500 ++ repeat lost_sample 500) eq_refl)
    as (bnd & i_sorted & Hb & Hperm & Hx & _).
  exists bnd. split; [exact Hb|].
  rewrite Hx, length_map, (Permutation_length Hperm), length_seq.
  rewrite length_app, !repeat_length. reflexivity.
Qed.

(** ** Area (line 152) *)

(** The determinant is twice the signed area of the triangle of the three
    fixed points. *)
Lemma area_of_twice_triangle (x px : Vec3) (n1 n2 n3 : C) :
  Rabs (area_of (mkFixedPoints x px (fst n1, fst n2, fst n3) (snd n1, snd n2, snd n3)))
  = (2 * triangle_area n1 n2 n3)%R.
Proof.
  unfold area_of, det3, triangle_area; simpl.
  replace (2 * (Rabs (fst n1 * (snd n2 - snd n3) + fst n2 * (snd n3 - snd n1)
                      + fst n3 * (snd n1 - snd n2)) / 2))%R
    with (Rabs (fst n1 * (snd n2 - snd n3) + fst n2 * (snd n3 - snd n1)
                + fst n3 * (snd n1 - snd n2))) by field.
  f_equal. ring.
Qed.

(** C2, on the code.  For fixed points at the normalised coordinates
    (0, 1), (-0.866, -0.5), (0.866, -0.5) the returned [stable_area] is the
    determinant 2.598, twice the area of the triangle; its magnitude is more
    than 1.29 away from 3 sqrt(3) / 4. *)
Theorem stable_area_of_unit_triangle (x px : Vec3) :
  area_of (mkFixedPoints x px (0, -0.866, 0.866) (1, -0.5, -0.5))%R = 2.598%R /\
  Rabs (area_of (mkFixedPoints x px (0, -0.866, 0.866) (1, -0.5, -0.5))%R)
  = (2 * triangle_area (0, 1) (-0.866, -0.5) (0.866, -0.5))%R /\
  (1.29 < Rabs (area_of (mkFixedPoints x px (0, -0.866, 0.866) (1, -0.5, -0.5))%R)
          - 3 * sqrt 3 / 4)%R.
Proof.
  assert (Harea : area_of (mkFixedPoints x px (0, -0.866, 0.866) (1, -0.5, -0.5))%R
                  = 2.598%R)
    by (unfold area_of, det3; simpl; lra).
  split; [exact Harea|]. split.
  - exact (area_of_twice_triangle x px (0, 1)%R (-0.866, -0.5)%R (0.866, -0.5)%R).
  - rewrite Harea, Rabs_right by lra.
    pose proof sqrt3_sqr as Hs. pose proof (sqrt_pos 3) as Hpos. nra.
Qed.

(** ** The plotting branch (lines 155-192) *)

(** Reading a name in a namespace given binding by binding: only the
    comparison of the two names is computed. *)
Ltac lookup_step :=
  match goal with
  | |- context [lookup ((?n, ?v) :: ?ns) ?name] =>
      let b := eval vm_compute in (String.eqb n name) in
      lazymatch b with
      | true => change (lookup ((n, v) :: ns) name) with (Some v)
      | false => change (lookup ((n, v) :: ns) name) with (lookup ns name)
      end
  end.

Ltac lookups := unfold read, assign; repeat lookup_step.

(** Run the reads and the binds that are ready. *)
Ltac run :=
  repeat (progress
            (lookups;
             cbn [as_float as_num as_array as_triple as_poly as_record as_normalized
                  as_mask bind fst snd])).

Lemma take_length {A : Type} (a : list A) (idx : list nat) (vs : list A) :
  take a idx = Ok vs -> length vs = length idx.
Proof.
  revert vs. induction idx as [|i idx IH]; intros vs H; simpl in H.
  - apply Ok_inj in H. now subst.
  - apply bind_Ok in H as (v & _ & H). apply bind_Ok in H as (vs' & Hvs & H).
    apply Ok_inj in H. subst vs. simpl. f_equal. now apply IH.
Qed.

(** The four arrays of the boundary have one length. *)
Lemma sort_by_angle_lengths (x px x_norm px_norm : list R) (bnd : Boundary) :
  sort_by_angle x px x_norm px_norm = Ok bnd ->
  length (px_triangle bnd) = length (x_triangle bnd) /\
  length (px_norm_triangle bnd) = length (x_norm_triangle bnd).
Proof.
  unfold sort_by_angle. intros H.
  apply bind_Ok in H as (xs & Hxs & H). apply bind_Ok in H as (pxs & Hpxs & H).
  apply bind_Ok in H as (xns & Hxns & H). apply bind_Ok in H as (pxns & Hpxns & H).
  apply Ok_inj in H. subst bnd. simpl.
  apply take_length in Hxs, Hpxs, Hxns, Hpxns. split; congruence.
Qed.

Lemma triangle_boundary_lengths (rec_triangle : TrackRecord) (nc_triangle : NormalizedRecord)
  (bnd : Boundary) :
  triangle_boundary rec_triangle nc_triangle = Ok bnd ->
  length (px_triangle bnd) = length (x_triangle bnd) /\
  length (px_norm_triangle bnd) = length (x_norm_triangle bnd).
Proof.
  unfold triangle_boundary. intros H.
  apply bind_Ok in H as (x & _ & H). apply bind_Ok in H as (px & _ & H).
  apply bind_Ok in H as (xn & _ & H). apply bind_Ok in H as (pxn & _ & H).
  exact (sort_by_angle_lengths _ _ _ _ _ H).
Qed.

(** The mask and the normalised record have the shape of the record. *)
Lemma shape_state_mask (rec : TrackRecord) : shape (state_mask rec) = shape rec.
Proof.
  unfold shape, state_mask. rewrite map_map. apply map_ext. intros row.
  apply length_map.
Qed.

Lemma shape_normalized (twiss : TwissTable) (rec : TrackRecord) :
  shape (get_normalized_coordinates twiss rec) = shape rec.
Proof.
  unfold shape, get_normalized_coordinates. rewrite map_map. apply map_ext. intros row.
  apply length_map.
Qed.

Lemma bool_index_same_shape {S : Type} (f : S -> float) (vals : list (list S))
  (mask : list (list bool)) :
  shape vals = shape mask ->
  bool_index f vals mask
  = Ok (map (fun vm => B2R (f (fst vm)))
            (filter (fun vm => snd vm) (combine (concat vals) (concat mask)))).
Proof.
  intros H. unfold bool_index.
  destruct (list_eq_dec Nat.eq_dec (shape vals) (shape mask)); [reflexivity | contradiction].
Qed.

Lemma every_third_map {A B : Type} (f : A -> B) (l : list A) :
  forall skip, every_third skip (map f l) = map f (every_third skip l).
Proof.
  induction l as [|a l IH]; intros skip; simpl; [reflexivity|].
  destruct skip; simpl; now rewrite IH.
Qed.

Lemma ax_plot_same_length (style : Style) (xs ys : list R) :
  length xs = length ys -> ax_plot style xs ys = Ok (Plot style xs ys).
Proof.
  intros H. unfold ax_plot. now rewrite H, Nat.eqb_refl.
Qed.

(** With the mask [rec.state > 0], [a[mask_alive]] holds the entries of the
    samples flagged alive. *)
Lemma select_alive {S : Type} (f : S -> float) (l : list S) :
  forall l' : list Sample.t,
    map (fun vm => B2R (f (fst vm)))
        (filter (fun vm : S * bool => snd vm)
                (combine l (map (fun s => (0 <? Sample.state s)%Z) l')))
    = map (fun vs => B2R (f (fst vs)))
          (filter (fun vs => (0 <? Sample.state (snd vs))%Z) (combine l l')).
Proof.
  induction l as [|v l IH]; intros [|s l']; simpl; try reflexivity.
  destruct (0 <? Sample.state s)%Z; simpl; now rewrite IH.
Qed.

Lemma bool_index_alive {S : Type} (f : S -> float) (vals : list (list S))
  (rec : TrackRecord) :
  shape vals = shape rec ->
  bool_index f vals (state_mask rec) = Ok (alive f vals rec).
Proof.
  intros H. rewrite bool_index_same_shape by (now rewrite shape_state_mask).
  unfold alive, state_mask. now rewrite <- concat_map, select_alive.
Qed.

(** Two columns of one record, selected by the mask and thinned alike, can
    be plotted against each other. *)
Lemma curve_is_drawn {S : Type} (f g : S -> float) (vals : list (list S))
  (rec : TrackRecord) (ii : nat) :
  ax_plot Solid (every_third ii (alive f vals rec)) (every_third ii (alive g vals rec))
  = Ok (Plot Solid (every_third ii (alive f vals rec)) (every_third ii (alive g vals rec))).
Proof.
  apply ax_plot_same_length. unfold alive.
  now rewrite !every_third_map, !length_map.
Qed.

(** One pass of the loop draws two curves, every third sample flagged alive
    in each coordinate system, and binds [ii] only. *)
Lemma separatrix_curve_runs (twiss : TwissTable) (rec_separatrix : TrackRecord)
  (ii : nat) (ns : namespace) (fig : Figure) :
  lookup ns "rec_separatrix" = Some (VRecord rec_separatrix) ->
  lookup ns "mask_alive" = Some (VMask (state_mask rec_separatrix)) ->
  lookup ns "norm_separatrix"
  = Some (VNormalized (get_normalized_coordinates twiss rec_separatrix)) ->
  separatrix_curve ii (ns, fig)
  = Ok (assign "ii" (VInt ii) ns,
        draw_norm
          [Plot Solid
             (every_third ii (alive NormSample.x_norm
                                (get_normalized_coordinates twiss rec_separatrix)
                                rec_separatrix))
             (every_third ii (alive NormSample.px_norm
                                (get_normalized_coordinates twiss rec_separatrix)
                                rec_separatrix))]
          (draw_geom
             [Plot Solid
                (every_third ii (alive Sample.x rec_separatrix rec_separatrix))
                (every_third ii (alive Sample.px rec_separatrix rec_separatrix))]
             fig)).
Proof.
  intros Hrec Hmask Hnorm. unfold separatrix_curve. cbn [fst snd].
  lookups. rewrite Hrec, Hmask, Hnorm. cbn [as_record as_mask as_normalized bind].
  rewrite !bool_index_alive by (try apply shape_normalized; reflexivity).
  cbn [bind]. rewrite !curve_is_drawn. reflexivity.
Qed.

(** The plotting branch runs to its end on the variables of a call, and
    the [return] statement reads after it what it reads without it: the
    branch binds [fig], [ax_geom], [ax_norm], [ymin], [ymax], [mask_alive],
    [ii] and [intervale_x_pente], none of which the dictionary is built
    from. *)
Lemma plot_branch_runs (twiss : TwissTable)
  (record : TrackRecord) (norm_coords : NormalizedRecord) (rec_separatrix : TrackRecord)
  (poly_sep : R * R) (bnd : Boundary) (fp : FixedPoints) :
  length (px_triangle bnd) = length (x_triangle bnd) ->
  length (px_norm_triangle bnd) = length (x_norm_triangle bnd) ->
  exists ns fig,
    plot_branch (locals_at_155 record norm_coords rec_separatrix
                   (get_normalized_coordinates twiss rec_separatrix) poly_sep bnd fp)
    = Ok (ns, fig) /\
    return_dict ns
    = return_dict (locals_at_155 record norm_coords rec_separatrix
                     (get_normalized_coordinates twiss rec_separatrix) poly_sep bnd fp).
Proof.
  intros Hlen Hlen_norm.
  unfold plot_branch, locals_at_155. run. cbn [seq for_each].
  match goal with
  | |- context [separatrix_curve 0 (?ns, ?fig)] =>
      rewrite (separatrix_curve_runs twiss rec_separatrix 0 ns fig)
        by (lookups; reflexivity)
  end.
  run.
  match goal with
  | |- context [separatrix_curve 1 (?ns, ?fig)] =>
      rewrite (separatrix_curve_runs twiss rec_separatrix 1 ns fig)
        by (lookups; reflexivity)
  end.
  run.
  match goal with
  | |- context [separatrix_curve 2 (?ns, ?fig)] =>
      rewrite (separatrix_curve_runs twiss rec_separatrix 2 ns fig)
        by (lookups; reflexivity)
  end.
  run.
  rewrite (ax_plot_same_length Dashed) by reflexivity. run.
  rewrite (ax_plot_same_length Solid (x_triangle bnd)) by (symmetry; exact Hlen). run.
  rewrite (ax_plot_same_length Solid (x_norm_triangle bnd))
    by (symmetry; exact Hlen_norm).
  run.
  rewrite (ax_plot_same_length Stars (array3 (x_fp fp)))
    by (destruct (x_fp fp) as [[? ?] ?], (px_fp fp) as [[? ?] ?]; reflexivity).
  run.
  rewrite (ax_plot_same_length Stars (array3 (x_norm_fp fp)))
    by (destruct (x_norm_fp fp) as [[? ?] ?], (px_norm_fp fp) as [[? ?] ?]; reflexivity).
  run.
  eexists. eexists. split; [reflexivity|].
  unfold return_dict. run. reflexivity.
Qed.

(** ** The function *)

(** C10.  For every line (its tracker being a function of the particles
    and the number of turns) and every iteration budget, the call gives the
    same dictionary, or raises the same exception, with [plot = True] and
    with [plot = False]: whenever line 155 is reached the plotting branch
    runs to its end without raising, and it leaves bound as they were the
    six variables the dictionary is built from. *)
Theorem plot_does_not_alter_the_result (fuel : nat) (line : Line) :
  fmap fst (characterize_phase_space fuel line true)
  = fmap fst (characterize_phase_space fuel line false).
Proof.
  unfold characterize_phase_space, fmap.
  destruct (bisect fuel line bracket0) as [b| |]; cbn [bind]; try reflexivity.
  destruct (row0 (rec_x _)) as [x_separ| |]; cbn [bind]; try reflexivity.
  destruct (row0 (rec_px _)) as [px_separ| |]; cbn [bind]; try reflexivity.
  destruct (septum_fit _ _ _) as [poly_sep| |]; cbn [bind]; try reflexivity.
  destruct (triangle_boundary _ _) as [bnd| |] eqn:Hbnd; cbn [bind]; try reflexivity.
  destruct (triangle_fixed_points _ _) as [fp| |]; cbn [bind]; try reflexivity.
  destruct (triangle_boundary_lengths _ _ _ Hbnd) as [Hlen Hlen_norm].
  destruct (plot_branch_runs (twiss4d line)
              (track line (build_particles (linspace 0 2.5e-2 25) 0) 1000)
              (get_normalized_coordinates (twiss4d line)
                 (track line (build_particles (linspace 0 2.5e-2 25) 0) 1000))
              (track line (build_particles [snd b] 0) num_turns)
              poly_sep bnd fp Hlen Hlen_norm) as (ns & fig & -> & Hdict).
  cbn [bind fst snd]. rewrite Hdict. reflexivity.
Qed.

(** ** The function, stage by stage *)

Lemma return_dict_locals
  (record : TrackRecord) (norm_coords : NormalizedRecord)
  (rec_separatrix : TrackRecord) (norm_separatrix : NormalizedRecord)
  (poly_sep : R * R) (bnd : Boundary) (fp : FixedPoints) :
  return_dict (locals_at_155 record norm_coords rec_separatrix norm_separatrix
                             poly_sep bnd fp)
  = Ok (mkResult (area_of fp) (fst poly_sep)
                 (x_fp fp) (px_fp fp) (x_norm_fp fp) (px_norm_fp fp)).
Proof. unfold return_dict, locals_at_155. run. reflexivity. Qed.

(** A call whose stages return returns the dictionary built from them. *)
Lemma characterize_stages (fuel : nat) (line : Line) (plot : bool)
  (b : bracket) (x_separ px_separ : list float) (poly_sep : R * R)
  (bnd : Boundary) (fp : FixedPoints) :
  bisect fuel line bracket0 = Ok b ->
  row0 (rec_x (track line (build_particles [snd b] 0%float) num_turns)) = Ok x_separ ->
  row0 (rec_px (track line (build_particles [snd b] 0%float) num_turns)) = Ok px_separ ->
  septum_fit x_septum x_separ px_separ = Ok poly_sep ->
  triangle_boundary
    (track line (build_particles [fst b] 0%float) num_turns)
    (get_normalized_coordinates (twiss4d line)
       (track line (build_particles [fst b] 0%float) num_turns)) = Ok bnd ->
  triangle_fixed_points
    (track line (build_particles [fst b] 0%float) num_turns)
    (get_normalized_coordinates (twiss4d line)
       (track line (build_particles [fst b] 0%float) num_turns)) = Ok fp ->
  exists fig,
    characterize_phase_space fuel line plot
    = Ok (mkResult (area_of fp) (fst poly_sep)
                   (x_fp fp) (px_fp fp) (x_norm_fp fp) (px_norm_fp fp), fig) /\
    (plot = false -> fig = None).
Proof.
  intros Hb Hx Hpx Hfit Hbnd Hfp. unfold characterize_phase_space.
  rewrite Hb. cbn [bind]. rewrite Hx. cbn [bind]. rewrite Hpx. cbn [bind].
  rewrite Hfit. cbn [bind]. rewrite Hbnd. cbn [bind]. rewrite Hfp. cbn [bind].
  destruct plot.
  - destruct (triangle_boundary_lengths _ _ _ Hbnd) as [Hlen Hlen_norm].
    destruct (plot_branch_runs (twiss4d line)
                (track line (build_particles (linspace 0 2.5e-2 25) 0) 1000)
                (get_normalized_coordinates (twiss4d line)
                   (track line (build_particles (linspace 0 2.5e-2 25) 0) 1000))
                (track line (build_particles [snd b] 0) num_turns)
                poly_sep bnd fp Hlen Hlen_norm) as (ns & fig & -> & Hdict).
    cbn [bind fst snd]. rewrite Hdict, return_dict_locals. cbn [bind].
    eexists. split; [reflexivity | discriminate].
  - cbn [bind fst snd]. rewrite return_dict_locals. cbn [bind].
    eexists. split; reflexivity.
Qed.


Lemma complex_of_map {A : Type} (f g : A -> R) (row : list A) :
  complex_of (map f row) (map g row) = map (fun s => (f s, g s)) row.
Proof.
  unfold complex_of. induction row as [|s row IH]; simpl; [reflexivity|].
  now rewrite IH.
Qed.

Lemma complex128_of_map {A : Type} (f g : A -> float) (row : list A) :
  complex128_of (map f row) (map g row)
  = map (fun s => c128_add (f s, 0%float) (c128_mul (0%float, 1%float) (g s, 0%float))) row.
Proof.
  unfold complex128_of. induction row as [|s row IH]; simpl; [reflexivity|].
  now rewrite IH.
Qed.

(** The detection step reads the turns of row 0: it searches three of them
    in binary64 and returns them in both coordinate systems. *)
Lemma triangle_fixed_points_row (twiss : TwissTable) (rec_triangle : TrackRecord)
  (row : list Sample.t) :
  row0 rec_triangle = Ok row ->
  triangle_fixed_points rec_triangle (get_normalized_coordinates twiss rec_triangle)
  = (i_fp <- fixed_point_indices_b64 (map (z_norm_b64 twiss) row) ;;
     fixed_points_at (map z_phys row) (map (z_norm twiss) row) i_fp).
Proof.
  intros Hrow. unfold triangle_fixed_points.
  destruct (arrays_of_record twiss rec_triangle row Hrow) as (Hx & Hpx & Hxn & Hpxn).
  rewrite Hx, Hpx, Hxn, Hpxn. cbn [bind].
  destruct rec_triangle as [|r rest]; [discriminate|].
  apply Ok_inj in Hrow. subst r.
  unfold get_normalized_coordinates, row0. cbn [map get nth_error bind].
  rewrite !map_map, !complex_of_map.
  rewrite (complex128_of_map (fun s => NormSample.x_norm (normalize twiss s))
             (fun s => NormSample.px_norm (normalize twiss s)) row).
  reflexivity.
Qed.




Lemma fixed_points_at_total {S : Type} (f g : S -> C) (row : list S) (i1 i2 i3 : nat) :
  (i1 < length row)%nat -> (i2 < length row)%nat -> (i3 < length row)%nat ->
  exists fp, fixed_points_at (map f row) (map g row) (i1, i2, i3) = Ok fp.
Proof.
  intros H1 H2 H3. unfold fixed_points_at.
  destruct (pick3_total (map f row) i1 i2 i3) as (p1 & p2 & p3 & -> & _);
    try (now rewrite length_map).
  destruct (pick3_total (map g row) i1 i2 i3) as (n1 & n2 & n3 & -> & _);
    try (now rewrite length_map).
  cbn [bind]. eauto.
Qed.


(** ** Calls on synthetic trackers *)



Lemma bisect_resonant :
  bisect 15 resonant_line bracket0 = Ok (0.02999908447265625%float, 0.03%float).
Proof. vm_compute. reflexivity. Qed.

(** On the resonant tracker the closest turn to the septum is turn 0, and
    the fit goes through turns 997 and 3. *)
Lemma septum_fit_resonant :
  exists poly_sep,
    septum_fit x_septum (map Sample.x (map resonant_turn (seq 0 1000)))
               (map Sample.px (map resonant_turn (seq 0 1000))) = Ok poly_sep.
Proof.
  set (row := map resonant_turn (seq 0 1000)).
  destruct (septum_fit_cases x_septum (map Sample.x row) (map Sample.px row) 0)
    as [_ Hin]; [now rewrite !length_map | vm_compute; reflexivity |].
  rewrite Hin by (unfold row; rewrite !length_map, length_seq; lia). cbv zeta.
  replace (nth (three_before (length (map Sample.x row)) 0) (map Sample.x row) 0%float)
    with 0%float by (vm_compute; reflexivity).
  replace (nth (0 + 3) (map Sample.x row) 0%float)
    with 0.013671875%float by (vm_compute; reflexivity).
  rewrite B2R_zero. b2r 0.013671875%float.
  rewrite polyfit1_distinct by lra. eexists. reflexivity.
Qed.





(** * Further properties *)

(** ** Separatrix locator: where the bracket and the tested offsets lie *)

Lemma locator_tree_inside :
  all_paths 15 (fun b _ => inside b) exits_inside bracket0 = true.
Proof. vm_compute. reflexivity. Qed.

Lemma inside_elim (b : bracket) :
  inside b = true ->
  (0 <=? fst b)%float = true /\ (fst b <? snd b)%float = true /\
  (snd b <=? 0.03)%float = true.
Proof. unfold inside. rewrite !andb_true_iff. tauto. Qed.

Lemma exits_inside_elim (n : nat) (b : bracket) :
  exits_inside n b = true ->
  inside b = true /\ (9.155e-7 <=? snd b - fst b)%float = true /\
  (snd b - fst b <=? 9.156e-7)%float = true.
Proof. unfold exits_inside. rewrite !andb_true_iff. tauto. Qed.

Lemma bracket_at_passes (line : Line) (k : nat) :
  bracket_at line k = passes line k bracket0.
Proof. reflexivity. Qed.

Lemma locator_run_inside (line : Line) :
  exits_inside 0 (bracket_at line 15) = true /\
  forall k, inside (bracket_at line k) = true.
Proof.
  destruct (run_in_tree 15 (fun b _ => inside b) exits_inside bracket0
              locator_tree_inside line)
    as (j & Hj & Hrun & _ & HQ & Hbefore & Hafter).
  destruct (locator_run line) as (Hrun' & _).
  rewrite Hrun' in Hrun. apply Ok_inj in Hrun.
  apply exits_inside_elim in HQ as (Hin & Hlo & Hhi).
  split.
  - rewrite Hrun. unfold exits_inside. now rewrite Hin, Hlo, Hhi.
  - intros k. rewrite bracket_at_passes.
    destruct (le_lt_dec j k) as [Hk|Hk].
    + now rewrite (Hafter k Hk).
    + exact (proj2 (Hbefore k Hk)).
Qed.

(** X1.  For every tracker and every pass, the bracket stays inside the
    initial one and keeps a positive width:
    [0 <= x_stable < x_unstable <= 0.03]. *)
Theorem bracket_stays_inside (line : Line) (k : nat) :
  (0 <=? fst (bracket_at line k))%float = true /\
  (fst (bracket_at line k) <? snd (bracket_at line k))%float = true /\
  (snd (bracket_at line k) <=? 0.03)%float = true.
Proof.
  destruct (locator_run_inside line) as [_ H].
  exact (inside_elim _ (H k)).
Qed.

(** X2.  For every tracker, the returned bracket has the width
    0.03 / 2^15 up to rounding: between 9.155e-7 and 9.156e-7, never
    narrower. *)
Theorem final_bracket_width (line : Line) :
  exists x_stable x_unstable,
    bisect 15 line bracket0 = Ok (x_stable, x_unstable) /\
    (9.155e-7 <=? x_unstable - x_stable)%float = true /\
    (x_unstable - x_stable <=? 9.156e-7)%float = true.
Proof.
  destruct (locator_run_inside line) as [H _].
  destruct (locator_run line) as (Hrun & _).
  apply exits_inside_elim in H as (_ & Hlo & Hhi).
  destruct (bracket_at line 15) as [lo hi].
  exists lo, hi. cbn [fst snd] in Hlo, Hhi. auto.
Qed.

Lemma locator_histories_inside : all_histories 15 tested_inside [] bracket0 = true.
Proof. vm_compute. reflexivity. Qed.

Lemma tested_in_range (line : Line) (t : float) (u : bool) :
  In (t, u) (tested 15 line bracket0) ->
  (0 <? t)%float = true /\ (t <? 0.03)%float = true.
Proof.
  intros Hin.
  destruct (history_in_tree 15 tested_inside [] bracket0 locator_histories_inside line)
    as (b' & _ & HQ).
  unfold tested_inside in HQ. rewrite forallb_forall in HQ.
  specialize (HQ (t, u)). rewrite app_nil_r in HQ.
  specialize (HQ (proj1 (in_rev _ _) Hin)). cbn [fst] in HQ.
  now apply andb_true_iff in HQ.
Qed.

(** X3.  During the loop the tracker is only asked about offsets strictly
    between 0 and 0.03, for every tracker. *)
Theorem tested_offsets_inside (line : Line) (t : float) (u : bool) :
  In (t, u) (tested 15 line bracket0) ->
  (0 <? t)%float = true /\ (t <? 0.03)%float = true.
Proof. exact (tested_in_range line t u). Qed.

Lemma tested_offsets_inside_witness :
  (0 <? 0.015)%float = true /\ (0.015 <? 0.03)%float = true.
Proof.
  apply (tested_offsets_inside (synthetic_line (fun _ => false)) 0.015%float false).
  left. reflexivity.
Defined.

(** ** Separatrix locator: trackers that always answer the same *)

Lemma tested_classified (line : Line) (n : nat) :
  forall b t u, In (t, u) (tested n line b) -> u = unstable line t.
Proof.
  induction n as [|n IH]; intros b t u H; simpl in H.
  - destruct (keep_going b); contradiction.
  - destruct (keep_going b); [|contradiction].
    destruct H as [H|H]; [now inversion H | exact (IH _ _ _ H)].
Qed.

(** Two trackers that classify alike the offsets the first one is asked
    about lead the loop to the same bracket. *)
Lemma bisect_agree (l1 l2 : Line) (n : nat) :
  forall b,
    (forall t u, In (t, u) (tested n l1 b) -> unstable l2 t = u) ->
    bisect n l1 b = bisect n l2 b.
Proof.
  induction n as [|n IH]; intros b H; simpl in *; [reflexivity|].
  destruct (keep_going b); [|reflexivity].
  assert (Hstep : bisect_step l1 b = bisect_step l2 b).
  { unfold bisect_step. now rewrite (H _ _ (or_introl eq_refl)). }
  rewrite <- Hstep. apply IH. intros t u Hin. apply H. now right.
Qed.

Lemma bisect_all_stable :
  bisect 15 (synthetic_line (fun _ => false)) bracket0
  = Ok (0.02999908447265625%float, 0.03%float).
Proof. vm_compute. reflexivity. Qed.

Lemma bisect_all_unstable :
  bisect 15 (synthetic_line (fun _ => true)) bracket0
  = Ok (0%float, 9.1552734375e-07%float).
Proof. vm_compute. reflexivity. Qed.

(** X4.  When no offset strictly between 0 and 0.03 is classified unstable,
    the loop does not report it: it returns the bracket
    [(0.02999908447265625, 0.03)], whose upper end is the initial bound,
    which the loop never tracked. *)
Theorem bisect_without_instability (line : Line) :
  (forall x, (0 <? x)%float = true -> (x <? 0.03)%float = true ->
             unstable line x = false) ->
  bisect 15 line bracket0 = Ok (0.02999908447265625%float, 0.03%float).
Proof.
  intros H. rewrite <- bisect_all_stable. apply bisect_agree.
  intros t u Hin. rewrite unstable_synthetic.
  rewrite (tested_classified _ _ _ _ _ Hin).
  destruct (tested_in_range line t u Hin) as [H0 H1]. symmetry. now apply H.
Qed.

Lemma bisect_without_instability_witness :
  bisect 15 (synthetic_line (fun _ => false)) bracket0
  = Ok (0.02999908447265625%float, 0.03%float).
Proof.
  apply (bisect_without_instability (synthetic_line (fun _ => false))).
  intros x _ _. apply unstable_synthetic.
Defined.

(** X5.  When every offset strictly between 0 and 0.03 is classified
    unstable, the loop returns the bracket [(0, 9.1552734375e-07)], whose
    lower end is the initial bound, which the loop never tracked. *)
Theorem bisect_without_stability (line : Line) :
  (forall x, (0 <? x)%float = true -> (x <? 0.03)%float = true ->
             unstable line x = true) ->
  bisect 15 line bracket0 = Ok (0%float, 9.1552734375e-07%float).
Proof.
  intros H. rewrite <- bisect_all_unstable. apply bisect_agree.
  intros t u Hin. rewrite unstable_synthetic.
  rewrite (tested_classified _ _ _ _ _ Hin).
  destruct (tested_in_range line t u Hin) as [H0 H1]. symmetry. now apply H.
Qed.

Lemma bisect_without_stability_witness :
  bisect 15 (synthetic_line (fun _ => true)) bracket0
  = Ok (0%float, 9.1552734375e-07%float).
Proof.
  apply (bisect_without_stability (synthetic_line (fun _ => true))).
  intros x _ _. apply unstable_synthetic.
Defined.

(** ** The function: termination and failures *)

(** Only the loop can exhaust the budget. *)
Lemma bind_completes {A B : Type} (m : outcome A) (k : A -> outcome B) :
  m <> OutOfFuel -> (forall a, k a <> OutOfFuel) -> bind m k <> OutOfFuel.
Proof.
  intros Hm Hk. destruct m as [a| |]; simpl; [apply Hk | discriminate | congruence].
Qed.

Lemma get_completes {A : Type} (a : list A) (i : nat) : get a i <> OutOfFuel.
Proof. unfold get. destruct (nth_error a i); discriminate. Qed.

Lemma py_index_completes {A : Type} (a : list A) (i : Z) : py_index a i <> OutOfFuel.
Proof.
  unfold py_index.
  destruct (i <? 0)%Z; [destruct (i + Z.of_nat (length a) <? 0)%Z|];
    try discriminate; apply get_completes.
Qed.

Lemma take_completes {A : Type} (a : list A) (idx : list nat) : take a idx <> OutOfFuel.
Proof.
  induction idx as [|i idx IH]; simpl; [discriminate|].
  apply bind_completes; [apply get_completes|]. intros v.
  apply bind_completes; [exact IH|]. discriminate.
Qed.

Lemma argmax_completes (a : list R) : argmax a <> OutOfFuel.
Proof. destruct a; discriminate. Qed.

Lemma argmax_b64_completes (a : list float) : argmax_b64 a <> OutOfFuel.
Proof. destruct a; discriminate. Qed.

Lemma argmin_b64_completes (a : list float) : argmin_b64 a <> OutOfFuel.
Proof. destruct a; discriminate. Qed.

Lemma fmap_completes {A B : Type} (f : A -> B) (m : outcome A) :
  m <> OutOfFuel -> fmap f m <> OutOfFuel.
Proof. intros H. apply bind_completes; [exact H | discriminate]. Qed.

Lemma read_completes {A : Type} (as_A : value -> option A) (ns : namespace)
  (name : string) : read as_A ns name <> OutOfFuel.
Proof.
  unfold read. destruct (lookup ns name) as [v|]; [destruct (as_A v)|]; discriminate.
Qed.

Lemma bool_index_completes {S : Type} (f : S -> float) (vals : list (list S))
  (mask : list (list bool)) : bool_index f vals mask <> OutOfFuel.
Proof. unfold bool_index. destruct (list_eq_dec _ _ _); discriminate. Qed.

Lemma ax_plot_completes (style : Style) (xs ys : list R) :
  ax_plot style xs ys <> OutOfFuel.
Proof. unfold ax_plot. destruct (Nat.eqb _ _); discriminate. Qed.

Ltac completes :=
  repeat first
    [ apply bind_completes; [|intros ?]
    | apply fmap_completes
    | apply get_completes
    | apply py_index_completes
    | apply take_completes
    | apply argmax_completes
    | apply argmax_b64_completes
    | apply argmin_b64_completes
    | apply polyfit1_completes
    | apply read_completes
    | apply bool_index_completes
    | apply ax_plot_completes
    | discriminate ].

Lemma septum_fit_completes (s : float) (x px : list float) : septum_fit s x px <> OutOfFuel.
Proof. unfold septum_fit. completes. Qed.

Lemma triangle_boundary_completes (r : TrackRecord) (nc : NormalizedRecord) :
  triangle_boundary r nc <> OutOfFuel.
Proof.
  unfold triangle_boundary, sort_by_angle, x_of, px_of, x_norm_of, px_norm_of, row0.
  completes.
Qed.

Lemma triangle_fixed_points_completes (r : TrackRecord) (nc : NormalizedRecord) :
  triangle_fixed_points r nc <> OutOfFuel.
Proof.
  unfold triangle_fixed_points, fixed_points_at, fixed_point_indices_b64,
    x_of, px_of, x_norm_of, px_norm_of, row0.
  completes; unfold pick3;
    repeat match goal with |- context [let '(_, _) := ?p in _] => destruct p end;
    completes.
Qed.

Lemma plot_branch_completes (ns : namespace) : plot_branch ns <> OutOfFuel.
Proof.
  unfold plot_branch. completes.
Qed.

Lemma return_dict_completes (ns : namespace) : return_dict ns <> OutOfFuel.
Proof. unfold return_dict. completes. Qed.

(** X6.  The call always terminates: for every line the loop is over after
    15 passes, so the outcome with a budget of 15 passes is a result or an
    exception, never an exhausted budget, and any larger budget gives the
    same outcome. *)
Theorem characterize_terminates (line : Line) (plot : bool) :
  characterize_phase_space 15 line plot <> OutOfFuel /\
  forall extra,
    characterize_phase_space (15 + extra) line plot
    = characterize_phase_space 15 line plot.
Proof.
  destruct (locator_run line) as (Hrun & _).
  split.
  - unfold characterize_phase_space. rewrite Hrun. cbn [bind].
    apply bind_completes; [unfold row0; completes | intros x_separ].
    apply bind_completes; [unfold row0; completes | intros px_separ].
    apply bind_completes; [apply septum_fit_completes | intros poly_sep].
    apply bind_completes; [apply triangle_boundary_completes | intros bnd].
    apply bind_completes; [apply triangle_fixed_points_completes | intros fp].
    apply bind_completes.
    + destruct plot; [|discriminate].
      apply bind_completes; [apply plot_branch_completes | discriminate].
    + intros st. apply bind_completes; [apply return_dict_completes | discriminate].
  - intros extra. unfold characterize_phase_space.
    now rewrite (bisect_more_fuel line 15 bracket0 _ extra Hrun), Hrun.
Qed.

(** The two arrays the slope fit reads. *)
Lemma rows_of_record (rec_separatrix : TrackRecord) (row : list Sample.t) :
  row0 rec_separatrix = Ok row ->
  row0 (rec_x rec_separatrix) = Ok (map Sample.x row) /\
  row0 (rec_px rec_separatrix) = Ok (map Sample.px row).
Proof.
  destruct rec_separatrix as [|r rest]; [discriminate|].
  intros H. apply Ok_inj in H. subst r. split; reflexivity.
Qed.

(** On a trajectory that is not empty the detection step returns. *)
Lemma triangle_fixed_points_total (twiss : TwissTable) (rec_triangle : TrackRecord)
  (row : list Sample.t) :
  row0 rec_triangle = Ok row -> row <> [] ->
  exists fp,
    triangle_fixed_points rec_triangle (get_normalized_coordinates twiss rec_triangle)
    = Ok fp.
Proof.
  intros Hrow Hne. rewrite (triangle_fixed_points_row twiss _ _ Hrow).
  destruct (fixed_point_indices_b64_total (map (z_norm_b64 twiss) row))
    as (i1 & i2 & i3 & Hi & H1 & H2 & H3).
  { destruct row; [congruence | discriminate]. }
  rewrite length_map in H1, H2, H3. rewrite Hi. cbn [bind].
  exact (fixed_points_at_total z_phys (z_norm twiss) row i1 i2 i3 H1 H2 H3).
Qed.

(** X7.  Once the tracker has left one row of turns for the particle at
    [x_unstable] and one row, not empty, for the particle at [x_stable], the
    slope fit decides the outcome of the call: an exception of the fit
    ([IndexError] from the two reads, [LinAlgError] from [np.polyfit]) is
    the exception of the call, and when the fit returns the call returns,
    with the slope of the fit as [dpx_dx_at_septum]; nothing after line 115
    raises. *)
Theorem characterize_outcome (line : Line) (plot : bool)
  (x_stable x_unstable : float) (row_s row_t : list Sample.t) :
  bisect 15 line bracket0 = Ok (x_stable, x_unstable) ->
  row0 (track line (build_particles [x_unstable] 0%float) num_turns) = Ok row_s ->
  row0 (track line (build_particles [x_stable] 0%float) num_turns) = Ok row_t ->
  row_t <> [] ->
  (forall e,
      septum_fit x_septum (map Sample.x row_s) (map Sample.px row_s) = Raise e ->
      characterize_phase_space 15 line plot = Raise e) /\
  (forall poly_sep,
      septum_fit x_septum (map Sample.x row_s) (map Sample.px row_s) = Ok poly_sep ->
      exists res fig,
        characterize_phase_space 15 line plot = Ok (res, fig) /\
        dpx_dx_at_septum res = fst poly_sep).
Proof.
  intros Hb Hs Ht Hne.
  destruct (rows_of_record _ _ Hs) as [Hx Hpx]. split.
  - intros e Hfit. unfold characterize_phase_space.
    rewrite Hb. cbn [bind fst snd]. rewrite Hx, Hpx. cbn [bind]. now rewrite Hfit.
  - intros poly_sep Hfit.
    destruct (triangle_boundary_all (twiss4d line) _ _ Ht) as (bnd & _ & Hbnd & _).
    destruct (triangle_fixed_points_total (twiss4d line) _ _ Ht Hne) as [fp Hfp].
    destruct (characterize_stages 15 line plot (x_stable, x_unstable)
                (map Sample.x row_s) (map Sample.px row_s) poly_sep bnd fp
                Hb Hx Hpx Hfit Hbnd Hfp) as (fig & Hcall & _).
    eexists. exists fig. split; [exact Hcall | reflexivity].
Qed.

Lemma characterize_outcome_witness :
  exists res fig,
    characterize_phase_space 15 resonant_line true = Ok (res, fig) /\
    exists poly_sep,
      septum_fit x_septum (map Sample.x (map resonant_turn (seq 0 1000)))
                 (map Sample.px (map resonant_turn (seq 0 1000))) = Ok poly_sep /\
      dpx_dx_at_septum res = fst poly_sep.
Proof.
  destruct septum_fit_resonant as [poly_sep Hfit].
  destruct (characterize_outcome resonant_line true
              0.02999908447265625%float 0.03%float
              (map resonant_turn (seq 0 1000)) (map resonant_turn (seq 0 1000)))
    as [_ Hok].
  - exact bisect_resonant.
  - reflexivity.
  - reflexivity.
  - discriminate.
  - destruct (Hok poly_sep Hfit) as (res & fig & Hcall & Hslope).
    exists res, fig. split; [exact Hcall|]. exists poly_sep. split; assumption.
Defined.

(** X8.  When the tracker leaves no row for the particle at [x_unstable],
    reading [rec_separatrix.x[0, :]] makes the call raise [IndexError]. *)
Theorem characterize_without_rows (line : Line) (plot : bool)
  (x_stable x_unstable : float) :
  bisect 15 line bracket0 = Ok (x_stable, x_unstable) ->
  track line (build_particles [x_unstable] 0%float) num_turns = [] ->
  characterize_phase_space 15 line plot = Raise IndexError.
Proof.
  intros Hb Hrec. unfold characterize_phase_space.
  rewrite Hb. cbn [bind fst snd]. rewrite Hrec. reflexivity.
Qed.

Lemma bisect_recordless :
  bisect 15 recordless_line bracket0 = Ok (0.02999908447265625%float, 0.03%float).
Proof. vm_compute. reflexivity. Qed.

Lemma characterize_without_rows_witness :
  characterize_phase_space 15 recordless_line true = Raise IndexError.
Proof.
  apply (characterize_without_rows recordless_line true
           0.02999908447265625%float 0.03%float).
  - exact bisect_recordless.
  - reflexivity.
Defined.

(** X9.  When the row of the particle at [x_unstable] has no turn,
    [np.argmin] of the empty array makes the call raise [ValueError]. *)
Theorem characterize_without_turns (line : Line) (plot : bool)
  (x_stable x_unstable : float) :
  bisect 15 line bracket0 = Ok (x_stable, x_unstable) ->
  row0 (track line (build_particles [x_unstable] 0%float) num_turns) = Ok [] ->
  characterize_phase_space 15 line plot = Raise ValueError.
Proof.
  intros Hb Hrow. unfold characterize_phase_space.
  rewrite Hb. cbn [bind fst snd].
  destruct (rows_of_record _ _ Hrow) as [Hx Hpx].
  rewrite Hx, Hpx. reflexivity.
Qed.

Lemma bisect_turnless :
  bisect 15 turnless_line bracket0 = Ok (0.02999908447265625%float, 0.03%float).
Proof. vm_compute. reflexivity. Qed.

Lemma characterize_without_turns_witness :
  characterize_phase_space 15 turnless_line true = Raise ValueError.
Proof.
  apply (characterize_without_turns turnless_line true
           0.02999908447265625%float 0.03%float).
  - exact bisect_turnless.
  - reflexivity.
Defined.

(** ** Boundary curve: the order of the angles *)

Lemma take_Ok_inv (a : list R) (idx : list nat) (vs : list R) :
  take a idx = Ok vs ->
  vs = map (fun i => nth i a 0%R) idx /\ forall i, In i idx -> (i < length a)%nat.
Proof.
  revert vs. induction idx as [|i idx IH]; intros vs H; simpl in H.
  - inversion H. split; [reflexivity | intros i []].
  - apply bind_Ok in H as (v & Hv & H). apply bind_Ok in H as (vs' & Hvs & H).
    inversion H; subst vs; clear H.
    destruct (IH _ Hvs) as [-> Hrange].
    apply get_Ok in Hv.
    assert (Hi : (i < length a)%nat) by (apply nth_error_Some; congruence).
    split.
    + simpl. f_equal. symmetry. now apply nth_error_nth.
    + intros j [<-|Hj]; auto.
Qed.

Lemma insert_by_sorted (keys : list R) (i : nat) (sorted : list nat) :
  Sorted Rle (map (fun j => nth j keys 0%R) sorted) ->
  Sorted Rle (map (fun j => nth j keys 0%R) (insert_by keys i sorted)).
Proof.
  induction sorted as [|j sorted IH]; intros H; simpl.
  - repeat constructor.
  - destruct (Rle_dec (nth i keys 0%R) (nth j keys 0%R)) as [Hle|Hgt].
    + simpl. constructor; [exact H | now constructor].
    + simpl in H. inversion H as [|? ? Hs Hhd]; subst.
      simpl. constructor; [now apply IH|].
      destruct sorted as [|k sorted]; simpl.
      * constructor. lra.
      * destruct (Rle_dec (nth i keys 0%R) (nth k keys 0%R)); simpl;
          constructor; [lra|]. now inversion Hhd.
Qed.

(** [np.argsort] lists the positions in ascending order of their keys. *)
Lemma argsort_sorted (keys : list R) :
  Sorted Rle (map (fun j => nth j keys 0%R) (argsort keys)).
Proof.
  unfold argsort. induction (seq 0 (length keys)) as [|i l IH]; simpl.
  - constructor.
  - now apply insert_by_sorted.
Qed.

Lemma nth_complex_of (re im : list R) (i : nat) :
  length re = length im -> (i < length re)%nat ->
  nth i (map Cangle (complex_of re im)) 0%R = Cangle (nth i re 0%R, nth i im 0%R).
Proof.
  intros Hlen Hi.
  assert (Hc : length (complex_of re im) = Nat.min (length re) (length im))
    by apply length_combine.
  rewrite (nth_indep _ 0%R (Cangle (0, 0)%R)) by (rewrite length_map, Hc; lia).
  rewrite map_nth. f_equal. now apply combine_nth.
Qed.

(** X10.  The boundary curve is in ascending order of the angle in the
    normalised plane: along the returned arrays, [np.angle] of
    [x_norm_triangle + 1j * px_norm_triangle] never decreases. *)
Theorem boundary_is_sorted_by_angle (twiss : TwissTable) (rec_triangle : TrackRecord)
  (row : list Sample.t) :
  row0 rec_triangle = Ok row ->
  exists bnd,
    triangle_boundary rec_triangle (get_normalized_coordinates twiss rec_triangle) = Ok bnd /\
    Sorted Rle (map Cangle (complex_of (x_norm_triangle bnd) (px_norm_triangle bnd))).
Proof.
  intros Hrow.
  destruct (arrays_of_record twiss rec_triangle row Hrow) as (Hx & Hpx & Hxn & Hpxn).
  unfold triangle_boundary. rewrite Hx, Hpx, Hxn, Hpxn. cbn [bind].
  set (xn := map (fun s => B2R (NormSample.x_norm (normalize twiss s))) row).
  set (pxn := map (fun s => B2R (NormSample.px_norm (normalize twiss s))) row).
  assert (Hlen : length xn = length pxn) by (unfold xn, pxn; now rewrite !length_map).
  destruct (sort_by_angle_all
              (map (fun s => B2R (Sample.x s)) row)
              (map (fun s => B2R (Sample.px s)) row) xn pxn)
    as (i_sorted & Hperm & Hsort); try (unfold xn, pxn; now rewrite !length_map).
  unfold sort_by_angle in Hsort |- *.
  set (theta := map Cangle (complex_of xn pxn)) in *.
  destruct (take (map (fun s => B2R (Sample.x s)) row) (argsort theta)) as [xs| |] eqn:E1;
    try discriminate. cbn [bind] in Hsort |- *.
  destruct (take (map (fun s => B2R (Sample.px s)) row) (argsort theta)) as [pxs| |] eqn:E2;
    try discriminate. cbn [bind] in Hsort |- *.
  destruct (take xn (argsort theta)) as [xns| |] eqn:E3; try discriminate.
  cbn [bind] in Hsort |- *.
  destruct (take pxn (argsort theta)) as [pxns| |] eqn:E4; try discriminate.
  cbn [bind] in Hsort |- *.
  eexists. split; [reflexivity|]. cbn [x_norm_triangle px_norm_triangle].
  apply take_Ok_inv in E3 as [-> Hrange]. apply take_Ok_inv in E4 as [-> _].
  replace (map Cangle
             (complex_of (map (fun i => nth i xn 0%R) (argsort theta))
                         (map (fun i => nth i pxn 0%R) (argsort theta))))
    with (map (fun j => nth j theta 0%R) (argsort theta)); [apply argsort_sorted|].
  rewrite complex_of_map, map_map. apply map_ext_in.
  intros i Hi. unfold theta. now rewrite nth_complex_of by auto.
Qed.

Lemma boundary_is_sorted_by_angle_witness :
  exists bnd,
    triangle_boundary lost_half_way
      (get_normalized_coordinates identity_twiss lost_half_way) = Ok bnd /\
    Sorted Rle (map Cangle (complex_of (x_norm_triangle bnd) (px_norm_triangle bnd))).
Proof.
  apply (boundary_is_sorted_by_angle identity_twiss lost_half_way
           (repeat alive_sample 500 ++ repeat lost_sample 500)).
  reflexivity.
Defined.

Lemma argsort_from (keys : list R) (len : nat) :
  forall s,
    (forall i, (s <= i)%nat -> (S i < s + len)%nat ->
               (nth i keys 0 <= nth (S i) keys 0)%R) ->
    fold_right (insert_by keys) [] (seq s len) = seq s len.
Proof.
  induction len as [|len IH]; intros s H; [reflexivity|].
  cbn [seq fold_right]. rewrite IH by (intros i Hi Hlt; apply H; lia).
  destruct len as [|len]; [reflexivity|]. cbn [seq insert_by].
  destruct (Rle_dec (nth s keys 0%R) (nth (S s) keys 0%R)) as [_|Hn]; [reflexivity|].
  exfalso. apply Hn. apply H; lia.
Qed.

Lemma take_all (a : list R) (n : nat) :
  length a = n -> take a (seq 0 n) = Ok a.
Proof.
  intros <-. rewrite take_in_range by (intros i Hi; apply in_seq in Hi; lia).
  now rewrite map_nth_seq.
Qed.

(** X11.  Sorting by angle leaves unchanged a trajectory whose angles
    already increase strictly from turn to turn: the boundary is the
    trajectory itself, so sorting a sorted boundary again is a no-op. *)
Theorem sorted_trajectory_is_kept (x px x_norm px_norm : list R) :
  length px = length x -> length x_norm = length x -> length px_norm = length x ->
  (forall i, (S i < length x)%nat ->
             (nth i (map Cangle (complex_of x_norm px_norm)) 0
              < nth (S i) (map Cangle (complex_of x_norm px_norm)) 0)%R) ->
  sort_by_angle x px x_norm px_norm = Ok (mkBoundary x px x_norm px_norm).
Proof.
  intros Hpx Hxn Hpxn Hinc. unfold sort_by_angle.
  set (theta := map Cangle (complex_of x_norm px_norm)) in *.
  assert (Hlen : length theta = length x).
  { unfold theta, complex_of. rewrite length_map.
    transitivity (Nat.min (length x_norm) (length px_norm));
      [apply length_combine | lia]. }
  assert (Hid : argsort theta = seq 0 (length x)).
  { unfold argsort. rewrite Hlen. apply argsort_from.
    intros i _ Hi. apply Rlt_le. apply Hinc. lia. }
  rewrite Hid, (take_all x), (take_all px), (take_all x_norm), (take_all px_norm)
    by auto.
  reflexivity.
Qed.

Lemma quarter_turns_angles :
  map Cangle (complex_of quarter_turns_x_norm quarter_turns_px_norm)
  = [0; PI / 2; PI]%R.
Proof.
  unfold quarter_turns_x_norm, quarter_turns_px_norm, complex_of, Cangle, arctan2.
  cbn [combine map fst snd].
  repeat match goal with
         | |- context [Rlt_dec ?a ?b] => destruct (Rlt_dec a b); try lra
         | |- context [Rle_dec ?a ?b] => destruct (Rle_dec a b); try lra
         end.
  replace (0 / 1)%R with 0%R by lra. replace (0 / -1)%R with 0%R by lra.
  rewrite atan_0. repeat f_equal. lra.
Qed.

Lemma sorted_trajectory_is_kept_witness :
  sort_by_angle [0; 0; 0]%R [0; 0; 0]%R quarter_turns_x_norm quarter_turns_px_norm
  = Ok (mkBoundary [0; 0; 0]%R [0; 0; 0]%R quarter_turns_x_norm quarter_turns_px_norm).
Proof.
  apply (sorted_trajectory_is_kept [0; 0; 0]%R [0; 0; 0]%R).
  - reflexivity.
  - reflexivity.
  - reflexivity.
  - rewrite quarter_turns_angles. pose proof PI_RGT_0 as Hpi.
    intros [|[|i]] Hi; simpl in *; try lia; lra.
Defined.

(** ** Fixed-point detection: the first maxima *)

(** In the array [r_triangle_norm * mask] a turn that passes the test keeps
    its radius and every other turn of finite radius becomes a zero. *)
Lemma masked_turn_in_disk (z1 rot w : complex128) :
  in_disk_b64 z1 rot w = true ->
  (np_abs w * (if in_disk_b64 z1 rot w then 1 else 0))%float = np_abs w.
Proof. intros ->. apply mul_one. Qed.

Lemma masked_turn_is_number (z1 rot w : complex128) :
  finite_b64 (np_abs w) = true ->
  number (np_abs w * (if in_disk_b64 z1 rot w then 1 else 0))%float.
Proof.
  intros Hfin. destruct (in_disk_b64 z1 rot w).
  - rewrite mul_one. now apply finite_is_number.
  - apply zero_not_nan. now apply mul_zero_finite.
Qed.

(** When the turn selected by [np.argmax(r_triangle_norm * mask)] passes
    the test of the mask, it is the first turn of largest radius among
    those that pass it. *)
Lemma argmax_masked_spec (z : list complex128) (z1 rot z2 : complex128) (i2 : nat) :
  (forall w, In w z -> finite_b64 (np_abs w) = true) ->
  argmax_b64 (masked_b64 (map np_abs z) (mask_near_b64 z z1 rot (np_abs z1))) = Ok i2 ->
  nth_error z i2 = Some z2 ->
  in_disk_b64 z1 rot z2 = true ->
  (forall w, In w z -> in_disk_b64 z1 rot w = true ->
             (np_abs w <=? np_abs z2)%float = true) /\
  (forall j w, (j < i2)%nat -> nth_error z j = Some w -> in_disk_b64 z1 rot w = true ->
               (np_abs w <? np_abs z2)%float = true).
Proof.
  intros Hfin Hi Hz2 Hin. rewrite masked_b64_as_map in Hi.
  apply argmax_b64_spec in Hi as (v & Hv & Hmax & Hfirst).
  2: { intros v Hv. apply in_map_iff in Hv as (w & <- & Hw).
       apply masked_turn_is_number. now apply Hfin. }
  rewrite nth_error_map, Hz2 in Hv. cbn [option_map] in Hv. apply Some_inj in Hv.
  rewrite (masked_turn_in_disk _ _ _ Hin) in Hv. subst v. split.
  - intros w Hw Hwin. rewrite <- (masked_turn_in_disk z1 rot w Hwin).
    apply Hmax. apply in_map_iff. now exists w.
  - intros j w Hj Hw Hwin. rewrite <- (masked_turn_in_disk z1 rot w Hwin).
    apply (Hfirst j); [exact Hj|]. now rewrite nth_error_map, Hw.
Qed.

(** X12.  On a trajectory whose radii [np.abs] are all finite, each of the
    three searches keeps the earliest turn among equals.  No turn has a
    larger radius than the first fixed point, and every turn before it has
    a strictly smaller one.  When the second (third) fixed point passes the
    test of the +120 (-120) degree disk, no turn that passes the test has a
    larger radius, and every earlier turn that passes it has a strictly
    smaller one. *)
Theorem fixed_points_are_first_maxima
  (z : list complex128) (i1 i2 i3 : nat) (z1 z2 z3 : complex128) :
  (forall w, In w z -> finite_b64 (np_abs w) = true) ->
  fixed_point_indices_b64 z = Ok (i1, i2, i3) ->
  nth_error z i1 = Some z1 -> nth_error z i2 = Some z2 -> nth_error z i3 = Some z3 ->
  ((forall w, In w z -> (np_abs w <=? np_abs z1)%float = true) /\
   (forall j w, (j < i1)%nat -> nth_error z j = Some w ->
                (np_abs w <? np_abs z1)%float = true)) /\
  (in_disk_b64 z1 rot_plus z2 = true ->
   (forall w, In w z -> in_disk_b64 z1 rot_plus w = true ->
              (np_abs w <=? np_abs z2)%float = true) /\
   (forall j w, (j < i2)%nat -> nth_error z j = Some w ->
                in_disk_b64 z1 rot_plus w = true ->
                (np_abs w <? np_abs z2)%float = true)) /\
  (in_disk_b64 z1 rot_minus z3 = true ->
   (forall w, In w z -> in_disk_b64 z1 rot_minus w = true ->
              (np_abs w <=? np_abs z3)%float = true) /\
   (forall j w, (j < i3)%nat -> nth_error z j = Some w ->
                in_disk_b64 z1 rot_minus w = true ->
                (np_abs w <? np_abs z3)%float = true)).
Proof.
  intros Hfin Hi Hz1 Hz2 Hz3.
  destruct (fixed_point_indices_b64_inv z i1 i2 i3 Hi) as (z1' & Hk1 & Hz1' & Hk2 & Hk3).
  rewrite Hz1 in Hz1'. injection Hz1' as <-.
  split; [|split].
  - apply (argmax_radius_spec z i1 z1); try assumption.
    intros w Hw. apply finite_is_number. now apply Hfin.
  - intros Hin. now apply (argmax_masked_spec z z1 rot_plus z2 i2).
  - intros Hin. now apply (argmax_masked_spec z z1 rot_minus z3 i3).
Qed.

(** On [seven_turns] the search returns turns 1, 3 and 5: turn 0 has a
    smaller radius than turn 1, turn 2 passes the test of the +120 degree
    disk with a smaller radius than turn 3, and turn 4 that of the -120
    degree disk with a smaller radius than turn 5. *)
Lemma fixed_points_are_first_maxima_witness :
  fixed_point_indices_b64 seven_turns = Ok (1, 3, 5)%nat /\
  ((forall w, In w seven_turns -> (np_abs w <=? np_abs (0, 1.0625))%float = true) /\
   (forall j w, (j < 1)%nat -> nth_error seven_turns j = Some w ->
                (np_abs w <? np_abs (0, 1.0625))%float = true)) /\
  ((forall w, In w seven_turns -> in_disk_b64 (0, 1.0625)%float rot_plus w = true ->
              (np_abs w <=? np_abs (-0.9375, -0.5))%float = true) /\
   (forall j w, (j < 3)%nat -> nth_error seven_turns j = Some w ->
                in_disk_b64 (0, 1.0625)%float rot_plus w = true ->
                (np_abs w <? np_abs (-0.9375, -0.5))%float = true)) /\
  ((forall w, In w seven_turns -> in_disk_b64 (0, 1.0625)%float rot_minus w = true ->
              (np_abs w <=? np_abs (0.9375, -0.5))%float = true) /\
   (forall j w, (j < 5)%nat -> nth_error seven_turns j = Some w ->
                in_disk_b64 (0, 1.0625)%float rot_minus w = true ->
                (np_abs w <? np_abs (0.9375, -0.5))%float = true)) /\
  in_disk_b64 (0, 1.0625)%float rot_plus (-0.875, -0.5)%float = true /\
  in_disk_b64 (0, 1.0625)%float rot_minus (0.875, -0.5)%float = true.
Proof.
  assert (Hi : fixed_point_indices_b64 seven_turns = Ok (1, 3, 5)%nat)
    by (vm_compute; reflexivity).
  assert (Hfin : forall w, In w seven_turns -> finite_b64 (np_abs w) = true).
  { intros w Hw. vm_compute in Hw.
    repeat (destruct Hw as [<-|Hw]; [vm_compute; reflexivity|]). destruct Hw. }
  destruct (fixed_points_are_first_maxima seven_turns 1 3 5
              (0, 1.0625)%float (-0.9375, -0.5)%float (0.9375, -0.5)%float
              Hfin Hi eq_refl eq_refl eq_refl)
    as (H1 & H2 & H3).
  split; [exact Hi|]. split; [exact H1|]. split; [|split; [|split]].
  - apply H2. vm_compute. reflexivity.
  - apply H3. vm_compute. reflexivity.
  - vm_compute. reflexivity.
  - vm_compute. reflexivity.
Defined.

(** ** Fixed-point detection: disks and distinct turns *)







(** ** Plotting: the three curves of the separatrix *)

Lemma every_third_cons {A : Type} (a : A) (l : list A) :
  every_third 0 (a :: l) = a :: every_third 2 l /\
  every_third 1 (a :: l) = every_third 0 l /\
  every_third 2 (a :: l) = every_third 1 l.
Proof. repeat split. Qed.

Lemma every_third_partition {A : Type} (l : list A) :
  Permutation (every_third 0 l ++ every_third 1 l ++ every_third 2 l) l.
Proof.
  induction l as [|a l IH]; [apply Permutation_refl|].
  destruct (every_third_cons a l) as (-> & -> & ->).
  simpl. apply perm_skip.
  apply Permutation_trans
    with ((every_third 0 l ++ every_third 1 l) ++ every_third 2 l);
    [apply Permutation_app_comm | rewrite <- app_assoc; exact IH].
Qed.

Lemma alive_as_filter {S : Type} (f g : S -> Sample.t) (h : S -> float) (l : list S) :
  map (fun vs => B2R (h (fst vs)))
      (filter (fun vs => (0 <? Sample.state (snd vs))%Z) (map (fun s => (s, g s)) l))
  = map (fun s => B2R (h s)) (filter (fun s => (0 <? Sample.state (g s))%Z) l).
Proof.
  induction l as [|s l IH]; simpl; [reflexivity|].
  destruct (0 <? Sample.state (g s))%Z; simpl; now rewrite IH.
Qed.

Lemma combine_diag {A : Type} (l : list A) : combine l l = map (fun s => (s, s)) l.
Proof. induction l as [|a l IH]; simpl; [reflexivity | now rewrite IH]. Qed.

(** X15.  The three curves drawn for the separatrix ([ii = 0, 1, 2]) hold,
    between them, the samples of the record flagged alive ([state > 0]),
    each exactly once, and no sample flagged lost. *)
Theorem separatrix_curves_partition_alive (rec_separatrix : TrackRecord) :
  Permutation
    (every_third 0 (alive Sample.x rec_separatrix rec_separatrix)
     ++ every_third 1 (alive Sample.x rec_separatrix rec_separatrix)
     ++ every_third 2 (alive Sample.x rec_separatrix rec_separatrix))
    (map (fun s => B2R (Sample.x s)) (alive_samples (concat rec_separatrix))) /\
  Permutation
    (every_third 0 (alive Sample.px rec_separatrix rec_separatrix)
     ++ every_third 1 (alive Sample.px rec_separatrix rec_separatrix)
     ++ every_third 2 (alive Sample.px rec_separatrix rec_separatrix))
    (map (fun s => B2R (Sample.px s)) (alive_samples (concat rec_separatrix))).
Proof.
  assert (H : forall h : Sample.t -> float,
             alive h rec_separatrix rec_separatrix
             = map (fun s => B2R (h s)) (alive_samples (concat rec_separatrix))).
  { intros h. unfold alive, alive_samples. rewrite combine_diag.
    apply (alive_as_filter (fun s => s) (fun s => s) h). }
  split; rewrite <- H; apply every_third_partition.
Qed.
